(** * google_news_scraper: the fetch-resolve-extract-dedup pipeline

    A shallow embedding of [src/data/scrape/google_news_scraper.py] and the
    properties of its specification.

    Conventions.
    - A Python [str] is the list of its code points ([pystr]); [len] is
      the length of that list.  Bytes are numbers below 256.
    - Library calls whose result depends on the network, the clock or a
      third-party algorithm ([feedparser.parse], [requests.get] followed by
      [BeautifulSoup], [trafilatura], [datetime.now], [hashlib.sha1],
      [json.dumps]/[json.loads], [urlparse], [pd.read_json] and [to_csv])
      are variables of a section;
      the network ones thread an oracle state, so that two calls with the
      same argument may answer differently.
    - A Python exception is an explicit outcome. *)

From Stdlib Require Import NArith List String Ascii Lia Bool.
From stdpp Require Import base option list gmap sets.
Import ListNotations.

Local Open Scope N_scope.

(** ** Strings *)

Abbreviation pystr := (list N).
Abbreviation bytes := (list N).

(** A string literal of the source (all of them are ASCII). *)
Definition py (s : string) : pystr := map N_of_ascii (list_ascii_of_string s).

(** Python's [len]. *)
Definition len (s : pystr) : nat := length s.

(** [s.startswith(p)] *)
Fixpoint startswith (p s : pystr) : bool :=
  match p, s with
  | [], _ => true
  | _ :: _, [] => false
  | a :: p', b :: s' => (a =? b) && startswith p' s'
  end.

(** [p in s] on strings: [p] occurs as a contiguous substring. *)
Fixpoint contains (p s : pystr) : bool :=
  startswith p s ||
  match s with
  | [] => false
  | _ :: s' => contains p s'
  end.

(** [s.replace(a, b)] for one-character [a] and [b]. *)
Definition replace_char (a b : N) (s : pystr) : pystr :=
  map (fun c => if c =? a then b else c) s.

(** [Py_UNICODE_ISSPACE]: the characters matched by [\s] in a [str]
    pattern and removed by [str.strip()]. *)
Definition is_space (c : N) : bool :=
  ((0x09 <=? c) && (c <=? 0x0D)) || ((0x1C <=? c) && (c <=? 0x20)) ||
  (c =? 0x85) || (c =? 0xA0) || (c =? 0x1680) ||
  ((0x2000 <=? c) && (c <=? 0x200A)) ||
  (c =? 0x2028) || (c =? 0x2029) || (c =? 0x202F) || (c =? 0x205F) ||
  (c =? 0x3000).

(** [re.sub(r"\s+", " ", s)]: every maximal run of white space becomes
    one space.  [in_run] tells that the previous character was white
    space. *)
Fixpoint sub_spaces (in_run : bool) (s : pystr) : pystr :=
  match s with
  | [] => []
  | c :: s' =>
      if is_space c
      then (if in_run then sub_spaces true s' else 0x20 :: sub_spaces true s')
      else c :: sub_spaces false s'
  end.

Fixpoint lstrip (s : pystr) : pystr :=
  match s with
  | [] => []
  | c :: s' => if is_space c then lstrip s' else s
  end.

(** [s.strip()] *)
Definition strip (s : pystr) : pystr := rev (lstrip (rev (lstrip s))).

(** [clean_text(s)]; the caller's [s or ""] has already turned [None]
    into the empty string. *)
Definition clean_text (s : pystr) : pystr := strip (sub_spaces false s).

(** ** UTF-8 *)

Definition is_surrogate (c : N) : bool := (0xD800 <=? c) && (c <=? 0xDFFF).

(** The code points a [str] can be encoded from: Unicode scalar values.
    [str.encode("utf-8")] raises [UnicodeEncodeError] on the others. *)
Definition scalar (c : N) : bool := (c <? 0x110000) && negb (is_surrogate c).

Definition utf8_encode_char (c : N) : option bytes :=
  if c <? 0x80 then Some [c]
  else if c <? 0x800 then Some [0xC0 + c / 64; 0x80 + c mod 64]
  else if c <? 0x10000 then
    if is_surrogate c then None
    else Some [0xE0 + c / 4096; 0x80 + (c / 64) mod 64; 0x80 + c mod 64]
  else if c <? 0x110000 then
    Some [0xF0 + c / 262144; 0x80 + (c / 4096) mod 64;
          0x80 + (c / 64) mod 64; 0x80 + c mod 64]
  else None.

(** [s.encode("utf-8")]; [None] is [UnicodeEncodeError]. *)
Fixpoint utf8_encode (s : pystr) : option bytes :=
  match s with
  | [] => Some []
  | c :: s' =>
      match utf8_encode_char c, utf8_encode s' with
      | Some b, Some bs => Some (b ++ bs)
      | _, _ => None
      end
  end.

Definition continuation (b : N) : bool := (0x80 <=? b) && (b <=? 0xBF).

(** The strict decoder of [open(..., encoding="utf-8")]: overlong forms,
    surrogates, values above U+10FFFF and truncated sequences are
    errors.  [None] is [UnicodeDecodeError]. *)
Fixpoint utf8_decode (bs : bytes) : option pystr :=
  match bs with
  | [] => Some []
  | b0 :: r0 =>
      if b0 <? 0x80 then cons b0 <$> utf8_decode r0
      else if (0xC2 <=? b0) && (b0 <=? 0xDF) then
        match r0 with
        | b1 :: r1 =>
            if continuation b1
            then cons ((b0 - 0xC0) * 64 + (b1 - 0x80)) <$> utf8_decode r1
            else None
        | _ => None
        end
      else if (0xE0 <=? b0) && (b0 <=? 0xEF) then
        match r0 with
        | b1 :: b2 :: r2 =>
            let c := (b0 - 0xE0) * 4096 + (b1 - 0x80) * 64 + (b2 - 0x80) in
            if continuation b1 && continuation b2 && (0x800 <=? c)
               && negb (is_surrogate c)
            then cons c <$> utf8_decode r2
            else None
        | _ => None
        end
      else if (0xF0 <=? b0) && (b0 <=? 0xF4) then
        match r0 with
        | b1 :: b2 :: b3 :: r3 =>
            let c := (b0 - 0xF0) * 262144 + (b1 - 0x80) * 4096
                     + (b2 - 0x80) * 64 + (b3 - 0x80) in
            if continuation b1 && continuation b2 && continuation b3
               && (0x10000 <=? c) && (c <? 0x110000)
            then cons c <$> utf8_decode r3
            else None
        | _ => None
        end
      else None
  end.

(** ** Helpers of the scraper *)

Definition MIN_TEXT_LEN : nat := 220.
Definition TARGET_PER_LABEL : nat := 450.

(** [google_news_rss_url(q)] with the default locale arguments. *)
Definition google_news_rss_url (q : pystr) : pystr :=
  py "https://news.google.com/rss/search?q=" ++ replace_char 0x20 0x2B q
  ++ py "&hl=en-US&gl=US&ceid=US:en".

(** [LABEL_QUERIES], in the insertion order that [dict.items()] follows. *)
Definition LABEL_QUERIES : list (pystr * list pystr) :=
  [ (py "business",
     [ py "economy OR inflation OR stock market OR central bank when:30d";
       py "interest rates OR bond yields OR GDP when:30d";
       py "company earnings OR revenue OR profit when:30d";
       py "trade deficit OR exports OR imports when:30d";
       py "banking regulation OR fintech when:30d" ]);
    (py "tech",
     [ py "artificial intelligence OR generative AI OR LLM when:30d";
       py "cybersecurity OR data breach OR ransomware when:30d";
       py "software update OR cloud computing OR SaaS when:30d";
       py "startup funding OR venture capital tech when:30d";
       py "semiconductor OR chip manufacturing when:30d" ]);
    (py "science",
     [ py "climate change OR environment research when:30d";
       py "space mission OR NASA OR telescope when:30d";
       py "scientists discover OR study finds when:30d";
       py "renewable energy research OR fusion when:30d";
       py "biodiversity OR ocean study when:30d" ]);
    (py "health",
     [ py "public health OR WHO OR outbreak when:30d";
       py "vaccine trial OR clinical trial when:30d";
       py "hospital OR healthcare policy when:30d";
       py "disease symptoms OR treatment study when:30d";
       py "mental health study OR depression anxiety when:30d" ]);
    (py "world",
     [ py "election OR parliament OR government policy when:30d";
       py "war OR conflict OR ceasefire when:30d";
       py "diplomacy OR summit OR sanctions when:30d";
       py "protest OR referendum OR coup when:30d";
       py "migration OR refugees OR border policy when:30d" ]) ].

(** ** Data *)

(** The result of a call that may raise. *)
Inductive outcome (A : Type) : Type :=
  | Returns (a : A)
  | Raises.
Arguments Returns {A} a.
Arguments Raises {A}.

(** What the resolver reads of an element of the parsed page: its tag
    name, the tokens of its [rel] attribute and its [href] attribute
    ([None] when the attribute is absent).  A page is the list of its
    elements in document order. *)
Record element := Element {
  tag : pystr;
  rel : option (list pystr);
  href : option pystr
}.
Abbreviation soup := (list element).

(** A feed entry; [None] is an attribute that is missing or [None]. *)
Record entry := Entry {
  entry_link : option pystr;
  entry_title : option pystr;
  entry_summary : option pystr;
  entry_description : option pystr;
  entry_published : option pystr
}.

(** The dictionary [row] built by [scrape_label], keys in insertion
    order. *)
Record Row := mkRow {
  row_id : pystr;
  row_label : pystr;
  row_source : pystr;
  row_url : pystr;
  row_published_at : pystr;
  row_title : pystr;
  row_summary : pystr;
  row_text : pystr;
  row_scraped_at : pystr
}.

(** [cols] of [rebuild_csv]. *)
Definition cols : list pystr :=
  [ py "id"; py "label"; py "source"; py "url"; py "published_at";
    py "title"; py "summary"; py "text"; py "scraped_at" ].

(** A parsed line of the log: the JSON object as a dictionary.  The model
    covers objects whose values are strings, the shape [append_raw]
    writes. *)
Abbreviation obj := (gmap pystr pystr).

Definition row_obj (r : Row) : obj :=
  list_to_map
    [ (py "id", row_id r); (py "label", row_label r);
      (py "source", row_source r); (py "url", row_url r);
      (py "published_at", row_published_at r); (py "title", row_title r);
      (py "summary", row_summary r); (py "text", row_text r);
      (py "scraped_at", row_scraped_at r) ].

(** [processed.csv]: the header line and the data lines, each the list of
    its cells as [to_csv] wrote them. *)
Record table := Table {
  header : list pystr;
  rows : list (list pystr)
}.

(** A data frame as [pandas] holds it: the labels of its columns, and
    its rows, each giving the value of every column.  The values are
    those that [pandas] made of the records when it read them (numbers,
    time stamps, strings, NaN), of a type [cell] that is left open. *)
Record frame (cell : Type) := Frame {
  frame_columns : list pystr;
  frame_rows : list (pystr -> cell)
}.
Arguments Frame {cell} _ _.
Arguments frame_columns {cell} _.
Arguments frame_rows {cell} _.

(** The two files of [DATA_DIR]; [None] is a path that does not exist. *)
Record files := Files {
  raw_jsonl : option bytes;
  processed_csv : option table
}.

(** What a run does to the outside, in order. *)
Inductive event :=
  | EvFeed (feed_url : pystr)
  | EvResolve (link : pystr)
  | EvExtract (url : pystr)
  | EvAppend (row : Row)
  | EvSleep.

(** How the body of the loop over entries ends. *)
Inductive signal := Next | Return | Raise.

(** ** Text files *)

(** Text mode with the default [newline=None]: ["\r\n"] and ["\r"] are
    read as ["\n"].  [after_cr] tells that the previous character was a
    carriage return. *)
Fixpoint universal_newlines (after_cr : bool) (s : pystr) : pystr :=
  match s with
  | [] => []
  | c :: s' =>
      if c =? 0x0D then 0x0A :: universal_newlines true s'
      else if (c =? 0x0A) && after_cr then universal_newlines false s'
      else c :: universal_newlines false s'
  end.

Definition push_char (c : N) (ls : list pystr) : list pystr :=
  if c =? 0x0A then [c] :: ls
  else match ls with
       | [] => [[c]]
       | l :: ls' => (c :: l) :: ls'
       end.

(** The lines that [for line in f] yields: each keeps its final ["\n"];
    a last line without one is yielded as it is. *)
Definition text_lines (s : pystr) : list pystr := foldr push_char [] s.

(** [s.split("\n")] *)
Definition split_lf (s : pystr) : list pystr :=
  foldr (fun c ls =>
           if c =? 0x0A then [] :: ls
           else match ls with
                | [] => [[c]]
                | l :: ls' => (c :: l) :: ls'
                end) [[]] s.

(** [DataFrame.drop_duplicates] on one key column, keeping the first
    row of each key. *)
Fixpoint drop_duplicates {A K : Type} `{EqDecision K}
    (key : A -> K) (l : list A) : list A :=
  match l with
  | [] => []
  | x :: l' =>
      x :: filter (fun y => key y <> key x) (drop_duplicates key l')
  end.

(** The rows appended by a sequence of events. *)
Definition appended (tr : list event) : list Row :=
  omap (fun ev => match ev with EvAppend r => Some r | _ => None end) tr.

(** ** Stand-ins for the libraries and for the network

    Concrete values for the variables of the section below, at which its
    statements are evaluated. *)

(** A digest without collisions: the bytes in reverse order. *)
Definition plain_digest (b : bytes) : pystr := rev b.

(** A digest of forty hexadecimal digits, as SHA-1 gives: the bytes are
    read as the digits of a number, which is taken modulo [2 ^ 160].
    Like SHA-1 it has collisions, there being more byte strings than
    digests. *)
Definition hex_digit (d : N) : N := if d <? 10 then 0x30 + d else 0x57 + d.

Fixpoint hex_digits (n : nat) (v : N) : pystr :=
  match n with
  | O => []
  | S n' => hex_digits n' (v / 16) ++ [hex_digit (v mod 16)]
  end.

Definition short_digest (b : bytes) : pystr :=
  hex_digits 40
    (fold_left (fun acc x => (acc * 257 + x + 1) mod 2 ^ 160) b 0).

(** A page whose canonical link names the publisher. *)
Definition publisher_page : soup :=
  [ Element (py "link") (Some [py "canonical"])
      (Some (py "https://real-publisher.com/story/1")) ].

(** A network on which every request fails. *)
Definition offline_get (w : unit) (url : pystr) : outcome soup * unit :=
  (Raises, w).

(** A network that answers every request with [publisher_page]. *)
Definition publisher_get (w : unit) (url : pystr) : outcome soup * unit :=
  (Returns publisher_page, w).

(** A writer and a reader of records in the place of [json]: a record
    is ["("], its nine fields separated by [","], and [")"]; a character
    [c] of a field is written as the two characters [0x40 + c / 4096] and
    [0x1000 + c mod 4096], neither of which is a separator or a line
    break. *)
Definition toy_field (s : pystr) : pystr :=
  flat_map (fun c => [0x40 + c / 4096; 0x1000 + c mod 4096]) s.

Definition toy_dumps (r : Row) : pystr :=
  0x28 :: toy_field (row_id r)
  ++ 0x2C :: toy_field (row_label r)
  ++ 0x2C :: toy_field (row_source r)
  ++ 0x2C :: toy_field (row_url r)
  ++ 0x2C :: toy_field (row_published_at r)
  ++ 0x2C :: toy_field (row_title r)
  ++ 0x2C :: toy_field (row_summary r)
  ++ 0x2C :: toy_field (row_text r)
  ++ 0x2C :: toy_field (row_scraped_at r)
  ++ [0x29].

(** A field and what follows its separator. *)
Fixpoint toy_read_field (l : pystr) : pystr * pystr :=
  match l with
  | a :: b :: l' =>
      if 0x40 <=? a
      then let '(f, rest) := toy_read_field l' in
           ((a - 0x40) * 4096 + (b - 0x1000) :: f, rest)
      else ([], b :: l')
  | _ => ([], [])
  end.

(** The white space that may follow a JSON value. *)
Definition json_space (c : N) : bool :=
  (c =? 0x20) || (c =? 0x09) || (c =? 0x0A) || (c =? 0x0D).

Definition toy_loads (line : pystr) : option obj :=
  match line with
  | c :: l0 =>
      if c =? 0x28 then
        let '(f1, l1) := toy_read_field l0 in
        let '(f2, l2) := toy_read_field l1 in
        let '(f3, l3) := toy_read_field l2 in
        let '(f4, l4) := toy_read_field l3 in
        let '(f5, l5) := toy_read_field l4 in
        let '(f6, l6) := toy_read_field l5 in
        let '(f7, l7) := toy_read_field l6 in
        let '(f8, l8) := toy_read_field l7 in
        let '(f9, l9) := toy_read_field l8 in
        if forallb json_space l9
        then Some (row_obj (mkRow f1 f2 f3 f4 f5 f6 f7 f8 f9))
        else None
      else None
  | [] => None
  end.

(** [urlparse(url).netloc] is not looked at by any statement. *)
Definition no_netloc (url : pystr) : outcome pystr := Returns [].

(** A clock that has stopped. *)
Definition fixed_clock {W : Type} (w : W) : pystr * W :=
  (py "2024-01-01T00:00:00+00:00", w).

(** The entry of the scenario of the specification. *)
Definition entry_x : entry :=
  Entry (Some (py "https://news.example/articles/abc")) (Some (py "X"))
        (Some []) None None.

(** A text of more than [MIN_TEXT_LEN] characters. *)
Definition story : pystr :=
  concat (repeat (py "All work and no play. ") 10) ++ py "The end of the story.".

(** The same link with a summary that is long enough. *)
Definition entry_long : entry :=
  Entry (Some (py "https://news.example/articles/abc")) (Some (py "X"))
        (Some story) None None.

Definition first_query (label : pystr) : pystr :=
  match List.find (fun lq => bool_decide (lq.1 = label)) LABEL_QUERIES with
  | Some (_, q :: _) => q
  | _ => []
  end.

(** A feed that has [e] under the first query of [label] and nothing
    elsewhere. *)
Definition feed_under {W : Type} (label : pystr) (e : entry)
    (w : W) (feed_url : pystr) : list entry * W :=
  (if bool_decide (feed_url = google_news_rss_url (first_query label))
   then [e] else [], w).

(** A feed with [entry_x] under the first query of "business" and
    [entry_long] under the first query of "tech". *)
Definition feed_two_labels (w : unit) (feed_url : pystr)
    : list entry * unit :=
  ((feed_under (py "business") entry_x w feed_url).1
   ++ (feed_under (py "tech") entry_long w feed_url).1, w).

(** Downloads that fail. *)
Definition fetch_nothing {W : Type} (w : W) (url : pystr)
    : outcome (option pystr) * W :=
  (Returns None, w).

(** Downloads that give a page. *)
Definition fetch_page (w : unit) (url : pystr)
    : outcome (option pystr) * unit :=
  (Returns (Some (py "<html>")), w).

(** Downloads that fail until one was tried. *)
Definition fetch_second_time (w : bool) (url : pystr)
    : outcome (option pystr) * bool :=
  (if w then Returns (Some (py "<html>")) else Returns None, true).

(** An extractor that finds [story] in every page. *)
Definition extract_story (page : pystr) : outcome (option pystr) :=
  Returns (Some story).

(** An extractor that finds an empty text. *)
Definition extract_empty (page : pystr) : outcome (option pystr) :=
  Returns (Some []).

(** A network on which every request fails, for any state. *)
Definition no_get {W : Type} (w : W) (url : pystr) : outcome soup * W :=
  (Raises, w).

(** A page whose only anchor leads to a publisher and names the
    aggregator in its query. *)
Definition referrer_page : soup :=
  [ Element (py "a") None
      (Some (py "https://example.com/?ref=news.google.com")) ].

Definition referrer_get (w : unit) (url : pystr) : outcome soup * unit :=
  (Returns referrer_page, w).

(** A table left by an earlier rebuild. *)
Definition stale_table : table :=
  Table cols [ map (fun _ => py "old") cols ].

(** A reader of logs in the place of [pd.read_json(..., lines=True)],
    for the logs that [toy_dumps] writes: the text is split at ["\n"],
    the lines are stripped, the empty ones dropped and the others read by
    [toy_loads]; the cells are the fields as they are, and a log without
    a record gives the empty frame. *)
Definition toy_records (bs : bytes) : option (list obj) :=
  text ← utf8_decode bs;
  mapM toy_loads (filter (fun l => l <> []) (map strip (split_lf text))).

Definition toy_frame (os : list obj) : frame (option pystr) :=
  Frame (match os with [] => [] | _ => cols end)
        ((fun (o : obj) (c : pystr) => o !! c) <$> os).

Definition toy_read_json (bs : bytes) : outcome (frame (option pystr)) :=
  match toy_records bs with
  | Some os => Returns (toy_frame os)
  | None => Raises
  end.

(** A cell as it is written: the field, and nothing for NaN. *)
Definition toy_csv_cell (c : option pystr) : pystr := default [] c.

(** A record with an id and a label, and nothing else. *)
Definition toy_row (i label : pystr) : Row :=
  mkRow i label [] [] [] [] [] [] [].

(** A log of three records, the first and the last with the same id. *)
Definition toy_log : bytes :=
  default [] (utf8_encode
    (toy_dumps (toy_row (py "a") (py "business")) ++ [0x0A]
     ++ toy_dumps (toy_row (py "b") (py "tech")) ++ [0x0A]
     ++ toy_dumps (toy_row (py "a") (py "world")) ++ [0x0A])).

(** ** The scraper *)

Section Scraper.
(** [hashlib.sha1(b).hexdigest()] *)
Variable sha1_hexdigest : bytes -> pystr.
(** [json.dumps(row, ensure_ascii=False)] *)
Variable json_dumps : Row -> pystr.
(** [json.loads(line)]; [None] when it raises. *)
Variable json_loads : pystr -> option obj.
(** The values of a data frame; [drop_duplicates] compares them. *)
Variable cell : Type.
Context `{EqDecision cell}.
(** [pd.read_json(RAW_PATH, lines=True)] on the bytes of the log: the
    frame, with the conversions of types and dates that [pandas] makes,
    or an exception. *)
Variable pd_read_json : bytes -> outcome (frame cell).
(** A value as [to_csv] writes it. *)
Variable to_csv_cell : cell -> pystr.
(** [urlparse(url).netloc] *)
Variable urlparse_netloc : pystr -> outcome pystr.
(** [trafilatura.extract(downloaded, ...)], which returns a string or
    [None]. *)
Variable trafilatura_extract : pystr -> outcome (option pystr).

(** The state of the network and of the clock. *)
Variable World : Type.
(** [feedparser.parse(feed_url)] followed by
    [getattr(feed, "entries", []) or []]. *)
Variable feedparser_parse : World -> pystr -> list entry * World.
(** [requests.get], [raise_for_status] and [BeautifulSoup(r.text)]:
    the parsed page, or an exception of any of the three. *)
Variable requests_get_soup : World -> pystr -> outcome soup * World.
(** [trafilatura.fetch_url(url)], which returns the page or [None]. *)
Variable trafilatura_fetch_url :
  World -> pystr -> outcome (option pystr) * World.
(** [datetime.now(timezone.utc).isoformat()] *)
Variable utcnow_isoformat : World -> pystr * World.

(** [stable_id(url)]; [None] when [url.encode] raises. *)
Definition stable_id (url : pystr) : option pystr :=
  sha1_hexdigest <$> utf8_encode url.

(** *** The ledger and the two files *)

(** One turn of the loop of [load_seen_ids]: the [try] adds
    [json.loads(line)["id"]], the [except] ignores the line. *)
Definition add_line_id (seen : gset pystr) (line : pystr) : gset pystr :=
  match json_loads line with
  | Some o =>
      match o !! py "id" with
      | Some i => {[ i ]} ∪ seen
      | None => seen
      end
  | None => seen
  end.

(** [load_seen_ids()].  The file iterator decodes outside the [try]:
    bytes that are not UTF-8 raise [UnicodeDecodeError] to the
    caller. *)
Definition load_seen_ids (raw : option bytes) : outcome (gset pystr) :=
  match raw with
  | None => Returns ∅
  | Some bs =>
      match utf8_decode bs with
      | None => Raises
      | Some text =>
          Returns (foldl add_line_id ∅
                     (text_lines (universal_newlines false text)))
      end
  end.

(** [append_raw(row)]: opening in mode ["a"] creates the file; the
    write raises when the line cannot be encoded, and the boolean is
    [false]. *)
Definition append_raw (row : Row) (raw : option bytes)
  : option bytes * bool :=
  let old := default [] raw in
  match utf8_encode (json_dumps row ++ [0x0A]) with
  | Some line => (Some (old ++ line), true)
  | None => (Some old, false)
  end.

(** [df.empty]: no row or no column. *)
Definition df_empty (df : frame cell) : bool :=
  match frame_rows df, frame_columns df with
  | [], _ | _, [] => true
  | _, _ => false
  end.

(** One row of [df[cols]]. *)
Definition select_cols (r : pystr -> cell) : list cell := map r cols.

(** The rows of [df.drop_duplicates("id")]. *)
Definition kept_rows (df : frame cell) : list (pystr -> cell) :=
  drop_duplicates (fun r => r (py "id")) (frame_rows df).

(** The table that [to_csv] writes for [df[cols].drop_duplicates("id")]. *)
Definition project (df : frame cell) : table :=
  Table cols
    (map (fun r => map to_csv_cell (select_cols r)) (kept_rows df)).

(** [rebuild_csv()].  [df[cols]] raises [KeyError] when a column of
    [cols] is not a column of the frame. *)
Definition rebuild_csv (fs : files) : outcome files :=
  match raw_jsonl fs with
  | None => Returns fs
  | Some bs =>
      match pd_read_json bs with
      | Raises => Raises
      | Returns df =>
          if df_empty df then Returns fs
          else if bool_decide (Forall (fun c => c ∈ frame_columns df) cols)
          then Returns (Files (raw_jsonl fs) (Some (project df)))
          else Raises
      end
  end.

(** *** Link resolver *)

(** [soup.find("link", rel="canonical")] matches a [link] element
    one of whose [rel] tokens is ["canonical"]. *)
Definition is_canonical_link (e : element) : bool :=
  bool_decide (tag e = py "link") &&
  match rel e with
  | Some tokens => bool_decide (py "canonical" ∈ tokens)
  | None => false
  end.

(** [soup.find_all("a", href=True)], as the list of the [href]s. *)
Definition anchor_hrefs (page : soup) : list pystr :=
  omap (fun e => if bool_decide (tag e = py "a") then href e else None) page.

(** The test of the loop over the anchors. *)
Definition external_href (h : pystr) : bool :=
  startswith (py "http") h && negb (contains (py "news.google.com") h).

(** The two [return]s inside the [try]; [None] when control reaches
    the end of the [try] block. *)
Definition find_original (page : soup) : option pystr :=
  let canon := List.find is_canonical_link page in
  match canon ≫= href with
  | Some (c :: h) => Some (c :: h)
  | _ => List.find external_href (anchor_hrefs page)
  end.

(** [resolve_google_news_to_original(url)] *)
Definition resolve_google_news_to_original (w : World) (url : pystr)
  : pystr * World :=
  let '(r, w') := requests_get_soup w url in
  (match r with
   | Returns page =>
       match find_original page with
       | Some h => h
       | None => url
       end
   | Raises => url   (* except Exception: pass *)
   end, w').

(** *** Text extractor *)

(** [extract_full_text(url)] *)
Definition extract_full_text (w : World) (url : pystr) : pystr * World :=
  let '(d, w') := trafilatura_fetch_url w url in
  (match d with
   | Returns (Some (c :: downloaded)) =>
       match trafilatura_extract (c :: downloaded) with
       | Returns text => clean_text (default [] text)
       | Raises => []
       end
   | Returns _ => []   (* if not downloaded: return "" *)
   | Raises => []
   end, w').

(** *** Orchestrator *)

(** What [scrape_label] reads and changes outside its own frame. *)
Record env := Env {
  world : World;
  seen : gset pystr;
  raw : option bytes;
  trace : list event
}.

(** [getattr(e, name, "") or ""] *)
Definition or_empty (o : option pystr) : pystr := default [] o.

(** [getattr(e, "summary", "") or getattr(e, "description", "") or ""] *)
Definition summary_or_description (e : entry) : pystr :=
  match or_empty (entry_summary e) with
  | [] => or_empty (entry_description e)
  | s => s
  end.

(** The text that is kept: the extracted one, or the title and the
    summary when it is short. *)
Definition fallback_text (extracted title summary : pystr) : pystr :=
  if (len extracted <? MIN_TEXT_LEN)%nat
  then clean_text (title ++ py ". " ++ summary)
  else extracted.

(** The body of [for e in tqdm(entries)], with the running total. *)
Definition process_entry (label : pystr) (added : nat) (s : env) (e : entry)
  : signal * nat * env :=
  if (TARGET_PER_LABEL <=? added)%nat then (Return, added, s)
  else
    match or_empty (entry_link e) with
    | [] => (Next, added, s)
    | link =>
        let '(original, w1) := resolve_google_news_to_original (world s) link in
        let s1 := Env w1 (seen s) (raw s) (trace s ++ [EvResolve link]) in
        match stable_id original with
        | None => (Raise, added, s1)
        | Some _id =>
            if decide (_id ∈ seen s) then (Next, added, s1)
            else
              let title := clean_text (or_empty (entry_title e)) in
              let summary := clean_text (summary_or_description e) in
              let published :=
                match entry_published e with
                | Some (c :: p) => clean_text (c :: p)
                | _ => []
                end in
              let '(extracted, w2) := extract_full_text w1 original in
              let s2 := Env w2 (seen s) (raw s)
                            (trace s1 ++ [EvExtract original]) in
              let text := fallback_text extracted title summary in
              if (len text <? MIN_TEXT_LEN)%nat then (Next, added, s2)
              else
                match urlparse_netloc original with
                | Raises => (Raise, added, s2)
                | Returns source =>
                    let '(now, w3) := utcnow_isoformat w2 in
                    let row := mkRow _id label source original published
                                     title summary text now in
                    match append_raw row (raw s) with
                    | (raw', false) =>
                        (Raise, added, Env w3 (seen s) raw' (trace s2))
                    | (raw', true) =>
                        let s3 := Env w3 ({[ _id ]} ∪ seen s) raw'
                                      (trace s2 ++ [EvAppend row; EvSleep]) in
                        if (TARGET_PER_LABEL <=? S added)%nat
                        then (Return, S added, s3)
                        else (Next, S added, s3)
                    end
                end
        end
    end.

(** [for e in tqdm(entries): ...] *)
Fixpoint scrape_entries (label : pystr) (added : nat) (s : env)
    (entries : list entry) : signal * nat * env :=
  match entries with
  | [] => (Next, added, s)
  | e :: entries' =>
      match process_entry label added s e with
      | (Next, added', s') => scrape_entries label added' s' entries'
      | stop => stop
      end
  end.

(** [for q in queries: ...], then [return added]. *)
Fixpoint scrape_queries (label : pystr) (added : nat) (s : env)
    (queries : list pystr) : outcome nat * env :=
  match queries with
  | [] => (Returns added, s)
  | q :: queries' =>
      let feed_url := google_news_rss_url q in
      let '(entries, w1) := feedparser_parse (world s) feed_url in
      let s1 := Env w1 (seen s) (raw s) (trace s ++ [EvFeed feed_url]) in
      match scrape_entries label added s1 entries with
      | (Next, added', s') => scrape_queries label added' s' queries'
      | (Return, added', s') => (Returns added', s')
      | (Raise, _, s') => (Raises, s')
      end
  end.

(** [scrape_label(label, queries, seen)] *)
Definition scrape_label (label : pystr) (queries : list pystr) (s : env)
  : outcome nat * env :=
  scrape_queries label 0%nat s queries.

(** [for label, queries in catalog: total_added += scrape_label(...)] *)
Fixpoint scrape_labels (catalog : list (pystr * list pystr))
    (total_added : nat) (s : env) : outcome nat * env :=
  match catalog with
  | [] => (Returns total_added, s)
  | (label, queries) :: catalog' =>
      match scrape_label label queries s with
      | (Returns added, s') =>
          scrape_labels catalog' (total_added + added)%nat s'
      | (Raises, s') => (Raises, s')
      end
  end.

(** What [run] leaves behind: the files, the state of the world, the
    events in order, and [total_added] unless an exception ended the
    run. *)
Record result := Result {
  res_files : files;
  res_world : World;
  res_trace : list event;
  res_total : outcome nat
}.

(** [run()], up to the summary it prints. *)
Definition run (fs : files) (w : World) : result :=
  match load_seen_ids (raw_jsonl fs) with
  | Raises => Result fs w [] Raises
  | Returns seen0 =>
      let '(r, s) := scrape_labels LABEL_QUERIES 0%nat
                       (Env w seen0 (raw_jsonl fs) []) in
      let fs1 := Files (raw s) (processed_csv fs) in
      match r with
      | Raises => Result fs1 (world s) (trace s) Raises
      | Returns total_added =>
          match rebuild_csv fs1 with
          | Returns fs2 =>
              Result fs2 (world s) (trace s) (Returns total_added)
          | Raises => Result fs1 (world s) (trace s) Raises
          end
      end
  end.

(** *** The resolver in the words of the specification *)

Definition spec_absolute_http (h : pystr) : bool :=
  startswith (py "http://") h || startswith (py "https://") h.

(** What follows the scheme, up to the next [/], [?] or [#]. *)
Fixpoint take_authority (s : pystr) : pystr :=
  match s with
  | [] => []
  | c :: s' =>
      if (c =? 0x2F) || (c =? 0x3F) || (c =? 0x23) then []
      else c :: take_authority s'
  end.

Definition spec_host (h : pystr) : pystr :=
  if startswith (py "http://") h then take_authority (drop 7 h)
  else if startswith (py "https://") h then take_authority (drop 8 h)
  else [].

(** "an absolute HTTP(S) href whose host is not the aggregator's own
    host" *)
Definition spec_external (h : pystr) : bool :=
  spec_absolute_http h &&
  negb (bool_decide (spec_host h = py "news.google.com")).

(** "(a) if a canonical link tag is present, return its href; (b) else
    scan anchor tags in document order and return the first absolute
    HTTP(S) href whose host is not the aggregator's own host; (c) else
    fall through." *)
Definition spec_find_original (page : soup) : option pystr :=
  match List.find (fun e => is_canonical_link e &&
                            bool_decide (is_Some (href e))) page with
  | Some canon => href canon
  | None => List.find spec_external (anchor_hrefs page)
  end.

(** The first canonical link of the page, if there is one, has no
    [href] or an empty one. *)
Definition no_canonical_href (page : soup) : Prop :=
  match List.find is_canonical_link page with
  | Some canon => href canon = None \/ href canon = Some []
  | None => True
  end.

(** *** Vocabulary of the statements *)

(** The bytes that [append_raw(row)] writes. *)
Definition line_bytes (r : Row) : bytes :=
  default [] (utf8_encode (json_dumps r ++ [0x0A])).

(** The content of a file, empty when the file does not exist. *)
Definition file_bytes (raw : option bytes) : bytes := default [] raw.

(** What holds of a row that [scrape_label] built under [label] and
    wrote. *)
Definition row_of_label (label : pystr) (r : Row) : Prop :=
  row_label r = label /\
  (MIN_TEXT_LEN <= len (row_text r))%nat /\
  stable_id (row_url r) = Some (row_id r) /\
  utf8_encode (json_dumps r ++ [0x0A]) = Some (line_bytes r).

(** From [s] to [s'] the events [tr] happened: the ledger gained the
    ids of the appended rows, which were new to it and are distinct,
    and the log gained their lines. *)
Record grows (P : Row -> Prop) (s : env) (tr : list event) (s' : env)
  : Prop := Grows {
  grows_trace : trace s' = trace s ++ tr;
  grows_seen : seen s' = list_to_set (row_id <$> appended tr) ∪ seen s;
  grows_fresh : forall r, r ∈ appended tr -> row_id r ∉ seen s;
  grows_nodup : NoDup (row_id <$> appended tr);
  grows_rows : forall r, r ∈ appended tr -> P r;
  grows_raw : file_bytes (raw s') =
              file_bytes (raw s) ++ concat (line_bytes <$> appended tr)
}.

(** The running total after an event. *)
Definition count_event (added : nat) (ev : event) : nat :=
  match ev with
  | EvAppend _ => S added
  | _ => added
  end.

(** Every event that happens while the running total is at the quota
    is the pause that follows the last append. *)
Fixpoint quiet_at_quota (added : nat) (tr : list event) : Prop :=
  match tr with
  | [] => True
  | ev :: tr' =>
      ((TARGET_PER_LABEL <= added)%nat -> ev = EvSleep) /\
      quiet_at_quota (count_event added ev) tr'
  end.

(** What holds of a row written while the labels of [catalog] were
    collected. *)
Definition row_of_catalog (catalog : list (pystr * list pystr)) (r : Row)
  : Prop :=
  row_label r ∈ catalog.*1 /\ row_of_label (row_label r) r.

(** *** Vocabulary of the statements about two runs *)

(** The id that [load_seen_ids] reads from a line, if any. *)
Definition line_id (line : pystr) : option pystr :=
  json_loads line ≫= (fun o => o !! py "id").

(** The lines of the log as [for line in f] yields them; [None] when
    the bytes do not decode. *)
Definition log_lines (raw : option bytes) : option (list pystr) :=
  (fun text => text_lines (universal_newlines false text))
    <$> utf8_decode (file_bytes raw).

(** The ids of the records of the log, in order, with repetitions. *)
Definition log_ids (raw : option bytes) : option (list pystr) :=
  (fun lines : list pystr => omap line_id lines) <$> log_lines raw.

(** The answers of the network do not depend on what was asked
    before. *)
Definition deterministic_world : Prop :=
  (forall w w' u, (feedparser_parse w u).1 = (feedparser_parse w' u).1) /\
  (forall w w' u, (requests_get_soup w u).1 = (requests_get_soup w' u).1) /\
  (forall w w' u,
      (trafilatura_fetch_url w u).1 = (trafilatura_fetch_url w' u).1).

(** [json.loads] reads the id back from a line that [json.dumps] wrote,
    and [json.dumps] writes no line break. *)
Definition json_round_trip : Prop :=
  forall r : Row,
    line_id (json_dumps r ++ [0x0A]) = Some (row_id r) /\
    Forall (fun c => c <> 0x0A /\ c <> 0x0D) (json_dumps r).

(** A log that decodes and whose last line, if there is one, is
    complete. *)
Definition complete_log (raw : option bytes) : Prop :=
  exists text,
    utf8_decode (file_bytes raw) = Some text /\
    forall c, last text = Some c -> c = 0x0A.

(** An entry that every later turn passes over: with a ledger that
    holds [S] it leaves no row, and the loop goes on unless the quota is
    met. *)
Definition settled (S : gset pystr) (e : entry) : Prop :=
  forall (label : pystr) (added : nat) (s : env),
    S ⊆ seen s ->
    exists s',
      process_entry label added s e
      = (if (TARGET_PER_LABEL <=? added)%nat then Return else Next,
         added, s') /\
      seen s' = seen s /\ raw s' = raw s /\
      appended (trace s') = appended (trace s).

(** Why a turn of the loop leaves no row, in a world [w] and with a
    ledger [S]: the entry has no link, or the id of its resolved URL is
    in the ledger, or its text is short. *)
Definition passed_over (S : gset pystr) (w : World) (e : entry) : Prop :=
  let link := or_empty (entry_link e) in
  let original := (resolve_google_news_to_original w link).1 in
  let w1 := (resolve_google_news_to_original w link).2 in
  link = [] \/
  exists i,
    stable_id original = Some i /\
    (i ∈ S \/
     (len (fallback_text (extract_full_text w1 original).1
             (clean_text (or_empty (entry_title e)))
             (clean_text (summary_or_description e)))
      < MIN_TEXT_LEN)%nat).

(** The number of the rows of a label. *)
Definition count_label (label : pystr) (rows : list Row) : nat :=
  length (filter (fun r => row_label r = label) rows).

(** *** Vocabulary of the statements about [clean_text] *)

(** [s.rstrip()], by recursion on the string. *)
Definition rstrip (s : pystr) : pystr :=
  foldr (fun c acc =>
           match acc with
           | [] => if is_space c then [] else [c]
           | _ => c :: acc
           end) [] s.

(** Every white space character is a space that no white space
    follows. *)
Fixpoint loose (s : pystr) : bool :=
  match s with
  | [] => true
  | c :: s' =>
      (negb (is_space c)
       || ((c =? 0x20)
           && match s' with
              | d :: _ => negb (is_space d)
              | [] => true
              end))
      && loose s'
  end.

(** A string in the form that [clean_text] gives: words separated by
    single spaces, with no white space at either end. *)
Definition tidy (s : pystr) : bool :=
  loose s
  && match s with c :: _ => negb (is_space c) | [] => true end
  && match last s with Some c => negb (is_space c) | None => true end.

(** *** Vocabulary of the statements about the events *)

(** Every append is followed at once by a pause, and there is no other
    pause. *)
Fixpoint paced (tr : list event) : Prop :=
  match tr with
  | [] => True
  | EvAppend _ :: tr' =>
      match tr' with
      | EvSleep :: tr'' => paced tr''
      | _ => False
      end
  | EvSleep :: _ => False
  | _ :: tr' => paced tr'
  end.

(** The feeds that were fetched, in order. *)
Definition feeds (tr : list event) : list pystr :=
  omap (fun ev => match ev with EvFeed u => Some u | _ => None end) tr.

(** ** UTF-8: decoding undoes encoding *)

Lemma div64_spec (c : N) : c = 64 * (c / 64) + c mod 64 /\ c mod 64 < 64.
Proof.
  split; [apply N.div_mod' | apply N.mod_lt; discriminate].
Qed.

Ltac name_digits c :=
  replace (c / 262144) with (c / 64 / 64 / 64)
    by (rewrite !N.Div0.div_div; reflexivity);
  replace (c / 4096) with (c / 64 / 64)
    by (rewrite !N.Div0.div_div; reflexivity);
  let H1 := fresh in let H2 := fresh in let H3 := fresh in
  pose proof (div64_spec c) as H1;
  pose proof (div64_spec (c / 64)) as H2;
  pose proof (div64_spec (c / 64 / 64)) as H3;
  generalize dependent (c mod 64);
  generalize dependent (c / 64 mod 64);
  generalize dependent (c / 64 / 64 mod 64);
  generalize dependent (c / 64 / 64 / 64);
  generalize dependent (c / 64 / 64);
  generalize dependent (c / 64); intros.

Ltac decide_tests :=
  repeat match goal with
    | |- context [N.ltb ?a ?b] => destruct (N.ltb_spec a b); try lia
    | |- context [N.leb ?a ?b] => destruct (N.leb_spec a b); try lia
    end.

Lemma utf8_decode_encode_char (c : N) (b rest : bytes) :
  utf8_encode_char c = Some b ->
  utf8_decode (b ++ rest) = cons c <$> utf8_decode rest.
Proof.
  unfold utf8_encode_char, is_surrogate.
  destruct (N.ltb_spec c 0x80).
  { intros [= <-]. simpl. destruct (N.ltb_spec c 0x80); [done | lia]. }
  destruct (N.ltb_spec c 0x800).
  { intros [= <-]. name_digits c. cbn [app utf8_decode].
    unfold continuation. decide_tests. cbn [andb]. do 2 f_equal. lia. }
  destruct (N.ltb_spec c 0x10000).
  { destruct (N.leb_spec 0xD800 c), (N.leb_spec c 0xDFFF);
      cbn [andb]; try discriminate; intros [= <-];
      name_digits c; cbn [app utf8_decode];
      unfold continuation, is_surrogate; decide_tests; cbn [andb negb];
      try (do 2 f_equal; lia). }
  destruct (N.ltb_spec c 0x110000); [| discriminate].
  intros [= <-]. name_digits c. cbn [app utf8_decode].
  unfold continuation. decide_tests. cbn [andb]. do 2 f_equal. lia.
Qed.

Lemma utf8_decode_encode_app (s : pystr) (bs rest : bytes) :
  utf8_encode s = Some bs ->
  utf8_decode (bs ++ rest) = app s <$> utf8_decode rest.
Proof.
  revert bs. induction s as [| c s IH]; intros bs.
  - intros [= <-]. simpl. by destruct (utf8_decode rest).
  - simpl. destruct (utf8_encode_char c) as [b |] eqn:Hc; [| done].
    destruct (utf8_encode s) as [bs' |]; [| done].
    intros [= <-]. rewrite <- app_assoc.
    rewrite (utf8_decode_encode_char _ _ _ Hc), (IH bs' eq_refl).
    by destruct (utf8_decode rest).
Qed.

Lemma utf8_decode_encode (s : pystr) (bs : bytes) :
  utf8_encode s = Some bs -> utf8_decode bs = Some s.
Proof.
  intros H. pose proof (utf8_decode_encode_app s bs [] H) as E.
  rewrite app_nil_r in E. simpl in E. by rewrite app_nil_r in E.
Qed.

Lemma utf8_encode_inj (s1 s2 : pystr) (bs : bytes) :
  utf8_encode s1 = Some bs -> utf8_encode s2 = Some bs -> s1 = s2.
Proof.
  intros H1 H2. apply utf8_decode_encode in H1, H2. congruence.
Qed.

Lemma utf8_encode_app (s1 s2 : pystr) :
  utf8_encode (s1 ++ s2) =
  match utf8_encode s1, utf8_encode s2 with
  | Some b1, Some b2 => Some (b1 ++ b2)
  | _, _ => None
  end.
Proof.
  induction s1 as [| c s1 IH]; simpl.
  - by destruct (utf8_encode s2).
  - rewrite IH. destruct (utf8_encode_char c), (utf8_encode s1),
      (utf8_encode s2); simpl; by rewrite ?app_assoc.
Qed.

Lemma utf8_encode_scalar (s : pystr) :
  forallb scalar s = true -> is_Some (utf8_encode s).
Proof.
  induction s as [| c s IH]; simpl; [eauto |].
  intros [Hc Hs]%andb_prop. destruct (IH Hs) as [bs ->].
  unfold scalar in Hc. apply andb_prop in Hc as [H1 H2].
  unfold utf8_encode_char. rewrite H1.
  apply negb_true_iff in H2. rewrite H2.
  repeat case_match; eauto.
Qed.

(** Decoding reads a file from left to right: what decodes keeps its
    reading when bytes are added after it. *)
Lemma utf8_decode_app (a b : bytes) (ta : pystr) :
  utf8_decode a = Some ta ->
  utf8_decode (a ++ b) = app ta <$> utf8_decode b.
Proof.
  remember (length a) as n eqn:Hn.
  revert a ta Hn. induction n as [n IH] using lt_wf_ind.
  intros [| b0 r0] ta Hn.
  { intros [= <-]. simpl. by destruct (utf8_decode b). }
  assert (Hrec : forall r t, (length r < n)%nat -> utf8_decode r = Some t ->
                   utf8_decode (r ++ b) = app t <$> utf8_decode b).
  { intros r t Hr Ht. by apply (IH (length r)). }
  cbn [app utf8_decode]. simpl in Hn.
  destruct (b0 <? 0x80).
  { destruct (utf8_decode r0) as [t |] eqn:E; [| done]. intros [= <-].
    rewrite (Hrec r0 t) by (done || lia). by destruct (utf8_decode b). }
  destruct ((0xC2 <=? b0) && (b0 <=? 0xDF)).
  { destruct r0 as [| b1 r1]; [done |]. cbn [app].
    destruct (continuation b1); [| done].
    destruct (utf8_decode r1) as [t |] eqn:E; [| done]. intros [= <-].
    rewrite (Hrec r1 t) by (done || simpl in Hn; lia).
    by destruct (utf8_decode b). }
  destruct ((0xE0 <=? b0) && (b0 <=? 0xEF)).
  { destruct r0 as [| b1 [| b2 r2]]; [done | done |]. cbn [app].
    cbv zeta. case_match; [| done].
    destruct (utf8_decode r2) as [t |] eqn:E; [| done]. intros [= <-].
    rewrite (Hrec r2 t) by (done || simpl in Hn; lia).
    by destruct (utf8_decode b). }
  destruct ((0xF0 <=? b0) && (b0 <=? 0xF4)); [| done].
  destruct r0 as [| b1 [| b2 [| b3 r3]]]; [done | done | done |]. cbn [app].
  cbv zeta. case_match; [| done].
  destruct (utf8_decode r3) as [t |] eqn:E; [| done]. intros [= <-].
  rewrite (Hrec r3 t) by (done || simpl in Hn; lia).
  by destruct (utf8_decode b).
Qed.

(** ** Identity function *)

(** C7. [stable_id] is the digest of the UTF-8 encoding of the URL as
    it is given: nothing is normalised before hashing, two URLs have the
    same encoding only if they are the same URL, and the same URL always
    has the same id.  Hence two URLs on whose encodings the digest does
    not collide have the same id if and only if they are the same
    URL. *)
Theorem stable_id_collision_free (u1 u2 : pystr) (b1 b2 : bytes) :
  utf8_encode u1 = Some b1 -> utf8_encode u2 = Some b2 ->
  stable_id u1 = Some (sha1_hexdigest b1) /\
  stable_id u2 = Some (sha1_hexdigest b2) /\
  (u1 = u2 <-> b1 = b2) /\
  (u1 = u2 -> stable_id u1 = stable_id u2) /\
  ((sha1_hexdigest b1 = sha1_hexdigest b2 -> b1 = b2) ->
   (stable_id u1 = stable_id u2 <-> u1 = u2)).
Proof.
  intros E1 E2.
  assert (Hbytes : u1 = u2 <-> b1 = b2).
  { split; [intros ->; congruence |].
    intros ->. by apply (utf8_encode_inj u1 u2 b2). }
  unfold stable_id. rewrite E1, E2. simpl. split_and!; try done.
  - intros ->%Hbytes. done.
  - intros Hfree. split.
    + intros [= H%Hfree]. by apply Hbytes.
    + intros ->%Hbytes. done.
Qed.

(** ** Link resolver *)

Lemma find_first {A} (f : A -> bool) (l : list A) (x : A) :
  List.find f l = Some x ->
  exists l1 l2, l = l1 ++ x :: l2 /\
                Forall (fun y => f y = false) l1 /\ f x = true.
Proof.
  induction l as [| y l IH]; simpl; [done |].
  destruct (f y) eqn:E.
  - intros [= ->]. exists [], l. auto.
  - intros (l1 & l2 & -> & ? & ?)%IH. exists (y :: l1), l2. auto.
Qed.

Lemma find_nowhere {A} (f : A -> bool) (l : list A) :
  List.find f l = None -> Forall (fun y => f y = false) l.
Proof.
  induction l as [| y l IH]; simpl; [by constructor |].
  destruct (f y) eqn:E; [done |]. intros H. constructor; auto.
Qed.

Lemma startswith_nonempty (p s : pystr) :
  p <> [] -> startswith p s = true -> s <> [].
Proof. by destruct p, s. Qed.

Lemma find_original_nonempty (page : soup) (h : pystr) :
  find_original page = Some h -> h <> [].
Proof.
  unfold find_original.
  destruct (List.find is_canonical_link page ≫= href) as [[| c t] |];
    try (intros [_ [_ (_ & _ & [? _]%andb_prop)]]%find_first;
         eapply startswith_nonempty; [| eassumption]; done).
  by intros [= <-].
Qed.

Lemma find_original_cases (page : soup) :
  match find_original page with
  | Some h =>
      (exists pre canon post,
          page = pre ++ canon :: post /\
          Forall (fun e => is_canonical_link e = false) pre /\
          is_canonical_link canon = true /\
          href canon = Some h /\ h <> [])
      \/ (no_canonical_href page /\
          exists before after,
            anchor_hrefs page = before ++ h :: after /\
            Forall (fun k => external_href k = false) before /\
            startswith (py "http") h = true /\
            contains (py "news.google.com") h = false)
  | None =>
      no_canonical_href page /\
      Forall (fun k => external_href k = false) (anchor_hrefs page)
  end.
Proof.
  unfold find_original, no_canonical_href.
  destruct (List.find is_canonical_link page) as [canon |] eqn:Ec; simpl.
  - destruct (href canon) as [[| c t] |] eqn:Eh.
    + destruct (List.find external_href (anchor_hrefs page)) as [h |] eqn:Ea.
      * right. split; [auto |].
        apply find_first in Ea as (b & a & -> & Hb & [? ?%negb_true_iff]%andb_prop).
        eauto 10.
      * split; [auto |]. by apply find_nowhere.
    + left. apply find_first in Ec as (pre & post & -> & ? & ?).
      exists pre, canon, post. done.
    + destruct (List.find external_href (anchor_hrefs page)) as [h |] eqn:Ea.
      * right. split; [auto |].
        apply find_first in Ea as (b & a & -> & Hb & [? ?%negb_true_iff]%andb_prop).
        eauto 10.
      * split; [auto |]. by apply find_nowhere.
  - destruct (List.find external_href (anchor_hrefs page)) as [h |] eqn:Ea.
    + right. split; [auto |].
      apply find_first in Ea as (b & a & -> & Hb & [? ?%negb_true_iff]%andb_prop).
      eauto 10.
    + split; [auto |]. by apply find_nowhere.
Qed.

(** C4, as the code has it.  On a page that was fetched and parsed,
    the resolver returns (a) the [href] of the first canonical link of
    the document when that [href] is not empty; (b) otherwise the first
    anchor [href], in document order, that starts with ["http"] and
    does not contain ["news.google.com"] anywhere; (c) otherwise the
    input URL.  When the request raises it returns the input URL. *)
Theorem resolve_first_match (w : World) (url : pystr) :
  match (requests_get_soup w url).1 with
  | Returns page =>
      match find_original page with
      | Some h =>
          (resolve_google_news_to_original w url).1 = h /\
          ((exists pre canon post,
               page = pre ++ canon :: post /\
               Forall (fun e => is_canonical_link e = false) pre /\
               is_canonical_link canon = true /\
               href canon = Some h /\ h <> [])
           \/ (no_canonical_href page /\
               exists before after,
                 anchor_hrefs page = before ++ h :: after /\
                 Forall (fun k => external_href k = false) before /\
                 startswith (py "http") h = true /\
                 contains (py "news.google.com") h = false))
      | None =>
          (resolve_google_news_to_original w url).1 = url /\
          no_canonical_href page /\
          Forall (fun k => external_href k = false) (anchor_hrefs page)
      end
  | Raises => (resolve_google_news_to_original w url).1 = url
  end.
Proof.
  unfold resolve_google_news_to_original.
  destruct (requests_get_soup w url) as [[page |] w']; simpl; [| done].
  pose proof (find_original_cases page) as H.
  destruct (find_original page); [split; [done | exact H] |].
  destruct H. done.
Qed.

(** C3, as the code has it.  The resolver is a total function to
    strings: whatever the request does, it returns one.  For an input
    that is not empty the result is not empty; when the fetch or the
    parse raises, and when the page has neither a usable canonical link
    nor a matching anchor, the result is the input. *)
Theorem resolve_never_empty (w : World) (url : pystr) :
  url <> [] ->
  (resolve_google_news_to_original w url).1 <> [] /\
  ((requests_get_soup w url).1 = Raises ->
   (resolve_google_news_to_original w url).1 = url) /\
  (forall page,
      (requests_get_soup w url).1 = Returns page ->
      no_canonical_href page ->
      Forall (fun k => external_href k = false) (anchor_hrefs page) ->
      (resolve_google_news_to_original w url).1 = url).
Proof.
  intros Hurl. unfold resolve_google_news_to_original.
  destruct (requests_get_soup w url) as [[page |] w']; simpl.
  - split; [| split; [done |]].
    + destruct (find_original page) as [h |] eqn:E; [| done].
      by eapply find_original_nonempty.
    + intros ? [= <-] Hc Ha.
      pose proof (find_original_cases page) as H.
      destruct (find_original page) as [h |]; [| done]. exfalso.
      destruct H as [(pre & canon & post & -> & Hpre & Hcanon & Hh & Hne)
                    | (_ & b & a & E & _ & H1 & H2)].
      * unfold no_canonical_href in Hc.
        assert (List.find is_canonical_link (pre ++ canon :: post)
                = Some canon) as Ef.
        { clear Hc Ha. induction Hpre as [| e pre He _ IH]; simpl.
          - by rewrite Hcanon.
          - by rewrite He. }
        rewrite Ef in Hc. destruct Hc; congruence.
      * rewrite E in Ha. apply Forall_app in Ha as [_ Ha].
        apply Forall_cons in Ha as [Ha _]. unfold external_href in Ha.
        rewrite H1, H2 in Ha. done.
  - done.
Qed.

(** ** The orchestrator: what a step does *)

Lemma appended_app (t1 t2 : list event) :
  appended (t1 ++ t2) = appended t1 ++ appended t2.
Proof. unfold appended. by rewrite omap_app. Qed.

Lemma grows_refl (P : Row -> Prop) (s : env) : grows P s [] s.
Proof.
  split; simpl; rewrite ?app_nil_r.
  - reflexivity.
  - by rewrite (left_id_L ∅ (∪)).
  - intros r Hr. by apply elem_of_nil in Hr.
  - constructor.
  - intros r Hr. by apply elem_of_nil in Hr.
  - reflexivity.
Qed.

Lemma grows_trans (P : Row -> Prop) (s s1 s2 : env) (t1 t2 : list event) :
  grows P s t1 s1 -> grows P s1 t2 s2 -> grows P s (t1 ++ t2) s2.
Proof.
  intros [Ht1 Hs1 Hf1 Hn1 Hr1 Hb1] [Ht2 Hs2 Hf2 Hn2 Hr2 Hb2].
  split; rewrite ?appended_app, ?fmap_app.
  - by rewrite Ht2, Ht1, app_assoc.
  - rewrite Hs2, Hs1, list_to_set_app_L. set_solver.
  - intros r [H | H]%elem_of_app; [auto |].
    apply Hf2 in H. rewrite Hs1 in H. set_solver.
  - apply NoDup_app. split_and!; [done | | done].
    intros i Hi (r & -> & Hr)%list_elem_of_fmap.
    apply Hf2 in Hr. rewrite Hs1 in Hr.
    apply Hr, elem_of_union_l, elem_of_list_to_set, Hi.
  - intros r [H | H]%elem_of_app; auto.
  - by rewrite Hb2, Hb1, concat_app, app_assoc.
Qed.

Lemma grows_weaken (P Q : Row -> Prop) (s s' : env) (tr : list event) :
  (forall r, P r -> Q r) -> grows P s tr s' -> grows Q s tr s'.
Proof. intros HPQ []. split; auto. Qed.

Lemma quiet_at_quota_app (added : nat) (t1 t2 : list event) :
  quiet_at_quota added (t1 ++ t2) <->
  quiet_at_quota added t1 /\
  quiet_at_quota (added + length (appended t1)) t2.
Proof.
  revert added. induction t1 as [| ev t1 IH]; intros added; simpl.
  - rewrite Nat.add_0_r. tauto.
  - rewrite IH. destruct ev; simpl; rewrite ?Nat.add_succ_r; tauto.
Qed.

(** What one turn of the loop over the entries does. *)
Lemma process_entry_grows (label : pystr) (added : nat) (s : env) (e : entry) :
  exists tr,
    grows (row_of_label label) s tr (process_entry label added s e).2 /\
    (process_entry label added s e).1.2 = (added + length (appended tr))%nat /\
    quiet_at_quota added tr /\
    ((process_entry label added s e).1.1 = Return ->
     (TARGET_PER_LABEL <= (process_entry label added s e).1.2)%nat) /\
    ((process_entry label added s e).1.1 = Next ->
     (added < TARGET_PER_LABEL)%nat ->
     ((process_entry label added s e).1.2 < TARGET_PER_LABEL)%nat) /\
    ((added <= TARGET_PER_LABEL)%nat ->
     ((process_entry label added s e).1.2 <= TARGET_PER_LABEL)%nat).
Proof.
  unfold process_entry.
  destruct (Nat.leb_spec TARGET_PER_LABEL added) as [Hq | Hq].
  { exists []. simpl. split_and!; try done; try lia. apply grows_refl. }
  destruct (or_empty (entry_link e)) as [| c link] eqn:El.
  { exists []. simpl. split_and!; try done; try lia. apply grows_refl. }
  destruct (resolve_google_news_to_original (world s) (c :: link))
    as [original w1].
  destruct (stable_id original) as [_id |] eqn:Eid.
  2:{ exists [EvResolve (c :: link)]. simpl. split_and!; try done; try lia.
      split; simpl; try done; try set_solver. constructor.
      by rewrite app_nil_r. }
  destruct (decide (_id ∈ seen s)) as [Hin | Hin].
  { exists [EvResolve (c :: link)]. simpl. split_and!; try done; try lia.
    split; simpl; try done; try set_solver. constructor.
    by rewrite app_nil_r. }
  destruct (extract_full_text w1 original) as [extracted w2].
  set (title := clean_text (or_empty (entry_title e))).
  set (summary := clean_text (summary_or_description e)).
  set (text := fallback_text extracted title summary).
  destruct (Nat.ltb_spec (len text) MIN_TEXT_LEN) as [Hlen | Hlen].
  { exists [EvResolve (c :: link); EvExtract original]. simpl.
    split_and!; try done; try lia.
    split; simpl; try done; try set_solver.
    - by rewrite <- app_assoc.
    - constructor.
    - by rewrite app_nil_r. }
  destruct (urlparse_netloc original) as [source |].
  2:{ exists [EvResolve (c :: link); EvExtract original]. simpl.
      split_and!; try done; try lia.
      split; simpl; try done; try set_solver.
      - by rewrite <- app_assoc.
      - constructor.
      - by rewrite app_nil_r. }
  destruct (utcnow_isoformat w2) as [now w3].
  set (row := mkRow _ _ _ _ _ _ _ _ _).
  unfold append_raw.
  destruct (utf8_encode (json_dumps row ++ [10])) as [line |] eqn:Eline.
  2:{ exists [EvResolve (c :: link); EvExtract original]. simpl.
      split_and!; try done; try lia.
      split; simpl; try done; try set_solver.
      - by rewrite <- app_assoc.
      - constructor.
      - by rewrite app_nil_r. }
  exists [EvResolve (c :: link); EvExtract original; EvAppend row; EvSleep].
  assert (Hg : grows (row_of_label label) s
                 [EvResolve (c :: link); EvExtract original;
                  EvAppend row; EvSleep]
                 (Env w3 ({[_id]} ∪ seen s) (Some (default [] (raw s) ++ line))
                    (((trace s ++ [EvResolve (c :: link)]) ++
                      [EvExtract original]) ++ [EvAppend row; EvSleep]))).
  { split; simpl.
    - by rewrite <- !app_assoc.
    - set_solver.
    - intros r ->%list_elem_of_singleton. done.
    - apply NoDup_singleton.
    - intros r ->%list_elem_of_singleton. unfold row_of_label, line_bytes.
      rewrite Eline. done.
    - unfold line_bytes, file_bytes. rewrite Eline. simpl.
      by rewrite app_nil_r. }
  destruct (Nat.leb_spec TARGET_PER_LABEL (S added)); simpl;
    (split; [exact Hg |]; split; [lia |];
     split; [repeat split; intros; (done || lia) |];
     repeat split; intros; (done || lia)).
Qed.


Ltac split6 := split; [| split; [| split; [| split; [| split]]]].

(** Events other than an append leave the ledger and the log alone. *)
Lemma grows_silent (P : Row -> Prop) (s s' : env) (tr : list event) :
  trace s' = trace s ++ tr -> seen s' = seen s -> raw s' = raw s ->
  appended tr = [] -> grows P s tr s'.
Proof.
  intros Ht Hs Hr Ha. split; rewrite ?Ha; simpl; rewrite ?app_nil_r.
  - done.
  - by rewrite (left_id_L ∅ (∪)).
  - intros r Hr'. by apply elem_of_nil in Hr'.
  - constructor.
  - intros r Hr'. by apply elem_of_nil in Hr'.
  - by rewrite Hr.
Qed.

(** What the loop over the entries of one feed does. *)
Lemma scrape_entries_grows (label : pystr) (entries : list entry) :
  forall (added : nat) (s : env),
  exists tr,
    grows (row_of_label label) s tr (scrape_entries label added s entries).2 /\
    (scrape_entries label added s entries).1.2
      = (added + length (appended tr))%nat /\
    quiet_at_quota added tr /\
    ((scrape_entries label added s entries).1.1 = Return ->
     (TARGET_PER_LABEL <= (scrape_entries label added s entries).1.2)%nat) /\
    ((scrape_entries label added s entries).1.1 = Next ->
     (added < TARGET_PER_LABEL)%nat ->
     ((scrape_entries label added s entries).1.2 < TARGET_PER_LABEL)%nat) /\
    ((added <= TARGET_PER_LABEL)%nat ->
     ((scrape_entries label added s entries).1.2 <= TARGET_PER_LABEL)%nat).
Proof.
  induction entries as [| e entries IH]; intros added s; simpl.
  { exists []. split6; simpl; try done; try lia. apply grows_refl. }
  destruct (process_entry_grows label added s e)
    as (t1 & Hg1 & Ha1 & Hq1 & Hr1 & Hn1 & Hb1).
  destruct (process_entry label added s e) as [[sig added1] s1].
  simpl in Hg1, Ha1, Hr1, Hn1, Hb1.
  destruct sig; [| by exists t1 | by exists t1].
  destruct (IH added1 s1) as (t2 & Hg2 & Ha2 & Hq2 & Hr2 & Hn2 & Hb2).
  exists (t1 ++ t2). split6.
  - eapply grows_trans; eauto.
  - rewrite appended_app, length_app. lia.
  - apply quiet_at_quota_app. split; [done |]. by rewrite <- Ha1.
  - done.
  - intros. apply Hn2; auto.
  - intros. apply Hb2. auto.
Qed.

(** What the loop over the queries of one label does, entered below
    the quota. *)
Lemma scrape_queries_grows (label : pystr) (queries : list pystr) :
  forall (added : nat) (s : env),
  (added < TARGET_PER_LABEL)%nat ->
  exists tr,
    grows (row_of_label label) s tr (scrape_queries label added s queries).2 /\
    quiet_at_quota added tr /\
    (added + length (appended tr) <= TARGET_PER_LABEL)%nat /\
    match (scrape_queries label added s queries).1 with
    | Returns n => n = (added + length (appended tr))%nat
    | Raises => True
    end.
Proof.
  induction queries as [| q queries IH]; intros added s Hlt; simpl.
  { exists []. split_and!; simpl; try done; try lia. apply grows_refl. }
  destruct (feedparser_parse (world s) (google_news_rss_url q))
    as [entries w1].
  set (s1 := Env w1 (seen s) (raw s)
                 (trace s ++ [EvFeed (google_news_rss_url q)])).
  assert (Hg0 : grows (row_of_label label) s
                  [EvFeed (google_news_rss_url q)] s1)
    by (by apply grows_silent).
  destruct (scrape_entries_grows label entries added s1)
    as (t1 & Hg1 & Ha1 & Hq1 & Hr1 & Hn1 & Hb1).
  destruct (scrape_entries label added s1 entries) as [[sig added1] s2].
  simpl in Hg1, Ha1, Hr1, Hn1, Hb1.
  assert (Hq0 : quiet_at_quota added ([EvFeed (google_news_rss_url q)] ++ t1)).
  { simpl. split; [intros; lia | done]. }
  destruct sig.
  - destruct (IH added1 s2) as (t2 & Hg2 & Hq2 & Hb2 & Hn2); [auto |].
    exists (([EvFeed (google_news_rss_url q)] ++ t1) ++ t2).
    split; [| split; [| split]].
    + eapply grows_trans; [eapply grows_trans |]; eauto.
    + apply quiet_at_quota_app. split; [done |].
      rewrite appended_app. simpl. by rewrite <- Ha1.
    + rewrite !appended_app, !length_app. simpl. lia.
    + destruct (scrape_queries label added1 s2 queries).1; [| done].
      rewrite !appended_app, !length_app. simpl. lia.
  - exists ([EvFeed (google_news_rss_url q)] ++ t1).
    split; [| split; [| split]].
    + by apply (grows_trans _ _ s1).
    + done.
    + simpl. lia.
    + done.
  - exists ([EvFeed (google_news_rss_url q)] ++ t1).
    split; [| split; [| split]].
    + by apply (grows_trans _ _ s1).
    + done.
    + simpl. lia.
    + done.
Qed.


Lemma quota_positive : (0 < TARGET_PER_LABEL)%nat.
Proof. unfold TARGET_PER_LABEL. lia. Qed.

(** What the loop over the labels does. *)
Lemma scrape_labels_grows (catalog : list (pystr * list pystr)) :
  forall (total : nat) (s : env),
  exists tr,
    grows (row_of_catalog catalog) s tr (scrape_labels catalog total s).2 /\
    match (scrape_labels catalog total s).1 with
    | Returns n => n = (total + length (appended tr))%nat
    | Raises => True
    end.
Proof.
  induction catalog as [| [label queries] catalog IH]; intros total s; simpl.
  { exists []. split; [apply grows_refl | simpl; lia]. }
  unfold scrape_label.
  destruct (scrape_queries_grows label queries 0%nat s quota_positive)
    as (t1 & Hg1 & _ & _ & Hn1).
  apply (grows_weaken _ (row_of_catalog ((label, queries) :: catalog)))
    in Hg1.
  2:{ intros r Hr. split; [| by rewrite (proj1 Hr)].
      rewrite (proj1 Hr). simpl. apply list_elem_of_here. }
  destruct (scrape_queries label 0%nat s queries) as [[added |] s1];
    simpl in Hg1, Hn1.
  - destruct (IH (total + added)%nat s1) as (t2 & Hg2 & Hn2).
    apply (grows_weaken _ (row_of_catalog ((label, queries) :: catalog)))
      in Hg2.
    2:{ intros r [Hr1 Hr2]. split; [| done]. simpl. by apply list_elem_of_further. }
    exists (t1 ++ t2). split; [by apply (grows_trans _ _ s1) |].
    destruct (scrape_labels catalog (total + added)%nat s1).1; [| done].
    rewrite appended_app, length_app. lia.
  - by exists t1.
Qed.

(** [rebuild_csv] does not write to the log. *)
Lemma rebuild_csv_log (fs fs' : files) :
  rebuild_csv fs = Returns fs' -> raw_jsonl fs' = raw_jsonl fs.
Proof.
  unfold rebuild_csv. destruct (raw_jsonl fs) as [bs |] eqn:E.
  - destruct (pd_read_json bs) as [df |]; [| done].
    destruct (df_empty df); [by intros [= <-] |].
    case_bool_decide; [| done]. by intros [= <-].
  - by intros [= <-].
Qed.

(** What a run does, from the ledger it loaded. *)
Lemma run_grows (fs : files) (w : World) :
  match load_seen_ids (raw_jsonl fs) with
  | Returns seen0 =>
      exists s',
        grows (row_of_catalog LABEL_QUERIES) (Env w seen0 (raw_jsonl fs) [])
          (res_trace (run fs w)) s' /\
        raw_jsonl (res_files (run fs w)) = raw s' /\
        res_world (run fs w) = world s'
  | Raises => run fs w = Result fs w [] Raises
  end.
Proof.
  unfold run. destruct (load_seen_ids (raw_jsonl fs)) as [seen0 |]; [| done].
  destruct (scrape_labels_grows LABEL_QUERIES 0%nat
              (Env w seen0 (raw_jsonl fs) [])) as (tr & Hg & _).
  destruct (scrape_labels LABEL_QUERIES 0%nat (Env w seen0 (raw_jsonl fs) []))
    as [r s'].
  simpl in Hg. pose proof (grows_trace _ _ _ _ Hg) as Ht. simpl in Ht.
  rewrite <- Ht in Hg. exists s'.
  destruct r as [total |]; [| done].
  destruct (rebuild_csv (Files (raw s') (processed_csv fs))) as [fs2 |] eqn:E;
    [| done].
  apply rebuild_csv_log in E. done.
Qed.


(** ** The quota *)

(** C8. The quota of a label is tested before each entry and after
    each append.  In the events of [scrape_label], once the running
    total has reached [TARGET_PER_LABEL] nothing happens but the pause
    that follows the last append: no feed is fetched, no link resolved,
    no text extracted, no row appended; the total returned is the number
    of rows appended and is at most the quota.  An entry met at the
    quota ends the function at once, and a turn of the loop that goes on
    to the next entry leaves the total below the quota. *)
Theorem quota_stops_label (label : pystr) (queries : list pystr) (s : env) :
  (exists tr,
      trace (scrape_label label queries s).2 = trace s ++ tr /\
      quiet_at_quota 0 tr /\
      (length (appended tr) <= TARGET_PER_LABEL)%nat /\
      match (scrape_label label queries s).1 with
      | Returns added => added = length (appended tr)
      | Raises => True
      end) /\
  (forall (added : nat) (e : entry),
      (TARGET_PER_LABEL <= added)%nat ->
      process_entry label added s e = (Return, added, s)) /\
  (forall (added : nat) (e : entry),
      (added < TARGET_PER_LABEL)%nat ->
      (process_entry label added s e).1.1 = Next ->
      ((process_entry label added s e).1.2 < TARGET_PER_LABEL)%nat).
Proof.
  split; [| split].
  - unfold scrape_label.
    destruct (scrape_queries_grows label queries 0%nat s quota_positive)
      as (tr & Hg & Hq & Hb & Hn).
    exists tr. split; [apply Hg |]. split; [done |]. split; [done |].
    by destruct (scrape_queries label 0%nat s queries).1.
  - intros added e Hq. unfold process_entry.
    by destruct (Nat.leb_spec TARGET_PER_LABEL added); [| lia].
  - intros added e Hlt Hnext.
    destruct (process_entry_grows label added s e)
      as (_ & _ & _ & _ & _ & Hn & _).
    auto.
Qed.

(** ** The length of the text *)

(** C2. Every row that a run appends to the log has a text of at least
    [MIN_TEXT_LEN] characters, and the run changes the log only by
    adding the lines of these rows at its end. *)
Theorem appended_text_long (fs : files) (w : World) :
  Forall (fun r => (MIN_TEXT_LEN <= len (row_text r))%nat)
    (appended (res_trace (run fs w))) /\
  file_bytes (raw_jsonl (res_files (run fs w))) =
    file_bytes (raw_jsonl fs)
    ++ concat (line_bytes <$> appended (res_trace (run fs w))).
Proof.
  pose proof (run_grows fs w) as H.
  destruct (load_seen_ids (raw_jsonl fs)) as [seen0 |].
  - destruct H as (s' & Hg & Hraw & _). split.
    + apply Forall_forall. intros r Hr.
      apply (grows_rows _ _ _ _ Hg) in Hr. apply Hr.
    + rewrite Hraw. apply (grows_raw _ _ _ _ Hg).
  - rewrite H. simpl. split; [constructor | by rewrite app_nil_r].
Qed.


(** ** Short texts *)

(** C5. When the extracted text is shorter than [MIN_TEXT_LEN], the
    text of the entry is the cleaned ["{title}. {summary}"].  When that
    is shorter than [MIN_TEXT_LEN] too, the entry leaves nothing behind:
    no row is appended, the ledger and the log are unchanged, the running
    total is not incremented, and the loop goes on to the next entry.
    When it is long enough, and the entry has a link whose resolved URL
    has an id that the ledger does not hold, the row that is appended has
    it as its text, unless [urlparse] or the write raises. *)
Theorem short_text_discarded
    (label : pystr) (added : nat) (s : env) (e : entry) :
  let link := or_empty (entry_link e) in
  let original := (resolve_google_news_to_original (world s) link).1 in
  let w1 := (resolve_google_news_to_original (world s) link).2 in
  let extracted := (extract_full_text w1 original).1 in
  let title := clean_text (or_empty (entry_title e)) in
  let summary := clean_text (summary_or_description e) in
  let fallback := clean_text (title ++ py ". " ++ summary) in
  (len extracted < MIN_TEXT_LEN)%nat ->
  fallback_text extracted title summary = fallback /\
  ((len fallback < MIN_TEXT_LEN)%nat ->
   appended (trace (process_entry label added s e).2) = appended (trace s) /\
   (process_entry label added s e).1.2 = added /\
   seen (process_entry label added s e).2 = seen s /\
   raw (process_entry label added s e).2 = raw s /\
   ((added < TARGET_PER_LABEL)%nat -> is_Some (stable_id original) ->
    (process_entry label added s e).1.1 = Next)) /\
  ((MIN_TEXT_LEN <= len fallback)%nat ->
   (added < TARGET_PER_LABEL)%nat -> link <> [] ->
   forall i, stable_id original = Some i -> i ∉ seen s ->
     ((process_entry label added s e).1.1 = Raise /\
      appended (trace (process_entry label added s e).2)
      = appended (trace s) /\
      seen (process_entry label added s e).2 = seen s)
     \/ (exists row,
           appended (trace (process_entry label added s e).2)
           = appended (trace s) ++ [row] /\
           row_text row = fallback /\
           row_title row = title /\ row_summary row = summary /\
           row_id row = i /\ row_url row = original /\
           row_label row = label /\
           (process_entry label added s e).1.2 = S added /\
           seen (process_entry label added s e).2 = {[ i ]} ∪ seen s)).
Proof.
  intros link original w1 extracted title summary fallback Hshort.
  assert (Hfb : fallback_text extracted title summary = fallback).
  { unfold fallback_text.
    by destruct (Nat.ltb_spec (len extracted) MIN_TEXT_LEN); [| lia]. }
  split; [done |].
  subst link original w1 extracted title summary fallback.
  unfold process_entry. split.
  - intros Hfall.
    destruct (Nat.leb_spec TARGET_PER_LABEL added) as [Hq | Hq].
    { simpl. split_and!; try done. intros; lia. }
    destruct (or_empty (entry_link e)) as [| c l].
    { simpl. split_and!; done. }
    destruct (resolve_google_news_to_original (world s) (c :: l))
      as [orig w1]. cbn [fst snd] in Hshort, Hfb |- *.
    destruct (stable_id orig) as [i |].
    2:{ simpl. rewrite appended_app. simpl. rewrite app_nil_r.
        split_and!; done. }
    destruct (decide (i ∈ seen s)).
    { simpl. rewrite appended_app. simpl. rewrite app_nil_r.
      split_and!; done. }
    destruct (extract_full_text w1 orig) as [ext w2].
    cbn [fst snd] in Hshort, Hfb. cbv zeta. rewrite Hfb.
    apply Nat.ltb_lt in Hfall. rewrite Hfall.
    simpl. rewrite !appended_app. simpl. rewrite !app_nil_r.
    split_and!; done.
  - intros Hlong Hq Hlink i Hi Hout.
    destruct (Nat.leb_spec TARGET_PER_LABEL added) as [| _]; [lia |].
    destruct (or_empty (entry_link e)) as [| c l]; [done |].
    destruct (resolve_google_news_to_original (world s) (c :: l))
      as [orig w1]. cbn [fst snd] in Hshort, Hfb, Hi |- *.
    rewrite Hi. destruct (decide (i ∈ seen s)); [done |].
    destruct (extract_full_text w1 orig) as [ext w2].
    cbn [fst snd] in Hshort, Hfb. cbv zeta. rewrite Hfb.
    apply Nat.ltb_ge in Hlong. rewrite Hlong.
    destruct (urlparse_netloc orig) as [source |].
    2:{ left. simpl. rewrite !appended_app. simpl.
        by rewrite !app_nil_r. }
    destruct (utcnow_isoformat w2) as [now w3].
    destruct (append_raw _ _) as [raw' []].
    2:{ left. simpl. rewrite !appended_app. simpl.
        by rewrite !app_nil_r. }
    right. eexists.
    destruct (TARGET_PER_LABEL <=? S added)%nat; simpl;
      rewrite !appended_app; simpl; rewrite !app_nil_r;
      split_and!; reflexivity.
Qed.

(** ** One ledger for all the labels *)

Lemma NoDup_urls (l : list Row) :
  NoDup (row_id <$> l) ->
  (forall r, r ∈ l -> stable_id (row_url r) = Some (row_id r)) ->
  NoDup (row_url <$> l).
Proof.
  induction l as [| a l IH]; simpl; [constructor |].
  intros [Ha Hl]%NoDup_cons Hid. apply NoDup_cons. split.
  - intros (r & Hu & Hr)%list_elem_of_fmap. apply Ha.
    apply list_elem_of_fmap. exists r. split; [| done].
    pose proof (Hid a (list_elem_of_here _ _)) as H1.
    pose proof (Hid r (list_elem_of_further _ _ _ Hr)) as H2.
    rewrite Hu in H1. congruence.
  - apply IH; [done |]. intros r Hr. apply Hid. by apply list_elem_of_further.
Qed.

(** C10, as the code has it.  The ledger is one for the whole run: the
    rows that a run appends have pairwise distinct URLs and pairwise
    distinct ids, whatever their labels; each has a label of the catalog
    and the id of its URL; so that a resolved URL is stored under at most
    one label of the catalog.  And an entry whose resolved URL has its id
    in the ledger leaves nothing behind: no row, and the ledger, the log
    and the running total as they were. *)
Theorem url_stored_once (fs : files) (w : World) :
  NoDup (row_url <$> appended (res_trace (run fs w))) /\
  NoDup (row_id <$> appended (res_trace (run fs w))) /\
  Forall (fun r => row_label r ∈ LABEL_QUERIES.*1 /\
                   stable_id (row_url r) = Some (row_id r))
    (appended (res_trace (run fs w))) /\
  (forall (label : pystr) (added : nat) (s : env) (e : entry) (i : pystr),
      stable_id (resolve_google_news_to_original (world s)
                   (or_empty (entry_link e))).1 = Some i ->
      i ∈ seen s ->
      appended (trace (process_entry label added s e).2)
        = appended (trace s) /\
      (process_entry label added s e).1.2 = added /\
      seen (process_entry label added s e).2 = seen s /\
      raw (process_entry label added s e).2 = raw s).
Proof.
  assert (Hrun : NoDup (row_id <$> appended (res_trace (run fs w))) /\
                 Forall (fun r => row_label r ∈ LABEL_QUERIES.*1 /\
                                  stable_id (row_url r) = Some (row_id r))
                   (appended (res_trace (run fs w)))).
  { pose proof (run_grows fs w) as H.
    destruct (load_seen_ids (raw_jsonl fs)) as [seen0 |].
    - destruct H as (s' & Hg & _). split; [apply Hg |].
      apply Forall_forall. intros r Hr.
      apply (grows_rows _ _ _ _ Hg) in Hr as [Hl (_ & _ & Hid & _)]. done.
    - rewrite H. simpl. split; constructor. }
  destruct Hrun as [Hnd Hall]. split_and!; [| done | done |].
  - apply NoDup_urls; [done |]. intros r Hr.
    rewrite Forall_forall in Hall. by apply Hall.
  - intros label added s e i Hid Hin. unfold process_entry.
    destruct (TARGET_PER_LABEL <=? added)%nat; [done |].
    destruct (or_empty (entry_link e)) as [| c l]; [done |].
    destruct (resolve_google_news_to_original (world s) (c :: l))
      as [orig w1]. simpl in Hid. rewrite Hid.
    destruct (decide (i ∈ seen s)); [| done].
    simpl. rewrite appended_app. simpl. by rewrite app_nil_r.
Qed.


(** ** Loading the ledger *)

Lemma foldl_add_line_id (lines : list pystr) (acc : gset pystr) (i : pystr) :
  i ∈ foldl add_line_id acc lines <->
  i ∈ acc \/
  exists line o, line ∈ lines /\ json_loads line = Some o /\
                 o !! py "id" = Some i.
Proof.
  revert acc. induction lines as [| l lines IH]; intros acc; simpl.
  { split; [auto |]. intros [H | (? & ? & []%elem_of_nil & _)]. done. }
  rewrite IH. unfold add_line_id. split.
  - intros [H | (line & o & Hl & Ho & Hi)].
    + destruct (json_loads l) as [o |] eqn:Eo; [| auto].
      destruct (o !! py "id") as [j |] eqn:Ej; [| auto].
      apply elem_of_union in H as [->%elem_of_singleton | H]; [| auto].
      right. exists l, o. split; [apply list_elem_of_here | done].
    + right. exists line, o. split; [by apply list_elem_of_further | done].
  - intros [H | (line & o & Hl & Ho & Hi)].
    + left. destruct (json_loads l) as [o |]; [| done].
      destruct (o !! py "id"); [| done]. set_solver.
    + apply elem_of_cons in Hl as [-> | Hl].
      * left. rewrite Ho, Hi. set_solver.
      * right. eauto.
Qed.

(** C9: where the code departs from the claim.  A log that ends in the
    middle of a character, here after the first two of the three bytes
    of a euro sign, makes [load_seen_ids] raise, whatever stands before:
    the file iterator decodes the bytes, and it does so outside the
    [try]. *)
Theorem load_seen_ids_truncated (text : pystr) (bs : bytes) :
  utf8_encode text = Some bs ->
  load_seen_ids (Some (bs ++ [0xE2; 0x82])) = Raises.
Proof.
  intros Henc. unfold load_seen_ids.
  apply utf8_decode_encode in Henc.
  by rewrite (utf8_decode_app _ _ _ Henc).
Qed.


(** ** Rebuilding the table *)

Lemma find_filter {A} (q : A -> bool) (P : A -> Prop)
    `{!forall x, Decision (P x)} (l : list A) :
  (forall y, q y = true -> P y) ->
  List.find q (filter P l) = List.find q l.
Proof.
  intros Hq. induction l as [| a l IH]; simpl; [done |].
  rewrite filter_cons. destruct (decide (P a)) as [Ha | Ha]; simpl.
  - by destruct (q a).
  - destruct (q a) eqn:E; [by apply Hq in E | done].
Qed.

(** The first row of each key is the same before and after. *)
Lemma drop_duplicates_find {A K} `{EqDecision K}
    (key : A -> K) (k : K) (l : list A) :
  List.find (fun x => bool_decide (key x = k)) (drop_duplicates key l)
  = List.find (fun x => bool_decide (key x = k)) l.
Proof.
  induction l as [| x l IH]; simpl; [done |].
  case_bool_decide as Hk; [done |].
  rewrite find_filter; [done |].
  intros y Hy%bool_decide_eq_true. congruence.
Qed.

Lemma drop_duplicates_elem {A K} `{EqDecision K}
    (key : A -> K) (l : list A) (x : A) :
  x ∈ drop_duplicates key l -> x ∈ l.
Proof.
  induction l as [| a l IH]; simpl; [done |].
  intros [-> | [_ H]%list_elem_of_filter]%elem_of_cons.
  - apply list_elem_of_here.
  - apply list_elem_of_further. auto.
Qed.

Lemma NoDup_fmap_filter {A K} (key : A -> K) (P : A -> Prop)
    `{!forall x, Decision (P x)} (l : list A) :
  NoDup (key <$> l) -> NoDup (key <$> filter P l).
Proof.
  induction l as [| a l IH]; simpl; [done |].
  intros [Ha Hl]%NoDup_cons. rewrite filter_cons.
  destruct (decide (P a)); [| auto].
  simpl. apply NoDup_cons. split; [| auto].
  intros (y & Hy & [_ Hin]%list_elem_of_filter)%list_elem_of_fmap.
  apply Ha. apply list_elem_of_fmap. eauto.
Qed.

(** No key is left twice. *)
Lemma drop_duplicates_NoDup {A K} `{EqDecision K}
    (key : A -> K) (l : list A) :
  NoDup (key <$> drop_duplicates key l).
Proof.
  induction l as [| a l IH]; simpl; [constructor |].
  apply NoDup_cons. split.
  - intros (y & Hy & [Hne _]%list_elem_of_filter)%list_elem_of_fmap. done.
  - by apply NoDup_fmap_filter.
Qed.

Lemma drop_duplicates_keys {A K} `{EqDecision K}
    (key : A -> K) (l : list A) (k : K) :
  k ∈ key <$> drop_duplicates key l <-> k ∈ key <$> l.
Proof.
  split.
  { intros (x & -> & Hx)%list_elem_of_fmap. apply list_elem_of_fmap.
    exists x. split; [done |]. by apply drop_duplicates_elem in Hx. }
  induction l as [| a l IH]; simpl; [done |].
  intros [-> | Hk]%elem_of_cons; [apply list_elem_of_here |].
  destruct (decide (k = key a)) as [-> | Hne]; [apply list_elem_of_here |].
  apply list_elem_of_further.
  apply IH, list_elem_of_fmap in Hk as (y & -> & Hy).
  apply list_elem_of_fmap. exists y. split; [done |].
  by apply list_elem_of_filter.
Qed.

Lemma drop_duplicates_sublist {A K} `{EqDecision K}
    (key : A -> K) (l : list A) :
  drop_duplicates key l `sublist_of` l.
Proof.
  induction l as [| a l IH]; simpl; [constructor |].
  apply sublist_skip. etransitivity; [apply sublist_filter | exact IH].
Qed.

Lemma drop_duplicates_length {A K} `{EqDecision K}
    (key : A -> K) (l : list A) :
  (length (drop_duplicates key l) <= length l)%nat.
Proof.
  induction l as [| a l IH]; simpl; [done |].
  pose proof (length_filter (fun y => key y <> key a)
                (drop_duplicates key l)). lia.
Qed.

(** C6, as the code has it.  From a log that exists and that
    [pd.read_json] reads as a frame with a row and with every column of
    [cols], [rebuild_csv] writes the table with the header [cols] and, in
    the order of the frame, one row for each distinct id of the frame,
    that of the first row with the id, with the cells of the columns of
    [cols] in their order; the ids are the values that [pandas] made of
    them.  The table replaces the one that was there, the log is
    untouched, and rebuilding once more writes the same table. *)
Theorem rebuild_csv_snapshot (fs : files) (bs : bytes) (df : frame cell) :
  raw_jsonl fs = Some bs ->
  pd_read_json bs = Returns df ->
  frame_rows df <> [] ->
  Forall (fun c => c ∈ frame_columns df) cols ->
  let key := fun r : pystr -> cell => r (py "id") in
  let fs' :=
    Files (Some bs)
      (Some (Table cols
               ((fun r => to_csv_cell <$> (r <$> cols)) <$> kept_rows df))) in
  rebuild_csv fs = Returns fs' /\
  rebuild_csv fs' = Returns fs' /\
  NoDup (key <$> kept_rows df) /\
  (forall k, k ∈ key <$> kept_rows df <-> k ∈ key <$> frame_rows df) /\
  kept_rows df `sublist_of` frame_rows df /\
  (forall k, List.find (fun r => bool_decide (key r = k)) (kept_rows df)
             = List.find (fun r => bool_decide (key r = k)) (frame_rows df)).
Proof.
  intros Hraw Hread Hrows Hcols key fs'.
  assert (Hne : df_empty df = false).
  { unfold df_empty. destruct (frame_rows df); [done |].
    destruct (frame_columns df); [| done].
    apply Forall_cons in Hcols as [[]%elem_of_nil _]. }
  assert (Hall : forall old,
             rebuild_csv (Files (Some bs) old) = Returns fs').
  { intros old. unfold rebuild_csv. simpl. rewrite Hread, Hne.
    by rewrite bool_decide_true. }
  split_and!.
  - destruct fs as [r old]. simpl in Hraw. subst r. apply Hall.
  - apply Hall.
  - apply drop_duplicates_NoDup.
  - intros k. apply drop_duplicates_keys.
  - apply drop_duplicates_sublist.
  - intros k. apply drop_duplicates_find.
Qed.


(** ** The log as text *)

Lemma foldl_add_line_id_ids (lines : list pystr) (acc : gset pystr) :
  foldl add_line_id acc lines = list_to_set (omap line_id lines) ∪ acc.
Proof.
  revert acc. induction lines as [| l lines IH]; intros acc; simpl.
  - set_solver.
  - rewrite IH. unfold add_line_id, line_id.
    destruct (json_loads l) as [o |]; simpl; [| done].
    destruct (o !! py "id"); simpl; set_solver.
Qed.

(** [load_seen_ids] returns the set of the ids of the lines of the log,
    and raises when the log does not decode. *)
Lemma load_seen_ids_spec (raw : option bytes) :
  load_seen_ids raw =
  match log_ids raw with
  | Some ids => Returns (list_to_set ids)
  | None => Raises
  end.
Proof.
  destruct raw as [bs |]; [| done].
  unfold load_seen_ids, log_ids, log_lines. simpl.
  destruct (utf8_decode bs); simpl; [| done].
  rewrite foldl_add_line_id_ids. f_equal. set_solver.
Qed.

Lemma universal_newlines_app (f : bool) (a b : pystr) :
  universal_newlines f (a ++ b) =
  universal_newlines f a
  ++ universal_newlines
       (match last a with Some c => c =? 0x0D | None => f end) b.
Proof.
  revert f. induction a as [| c a IH]; intros f; [done |].
  cbn [app universal_newlines].
  assert (Hlast : forall f',
             f' = (c =? 0x0D) ->
             match last (c :: a) with Some d => d =? 0x0D | None => f end
             = match last a with Some d => d =? 0x0D | None => f' end).
  { intros f' ->. destruct a as [| n a']; [done |].
    change (last (c :: n :: a')) with (last (n :: a')).
    destruct (last (n :: a')) eqn:E; [done |]. by apply last_None in E. }
  destruct (c =? 0x0D) eqn:E13.
  - rewrite IH, (Hlast true); done.
  - destruct ((c =? 0x0A) && f); rewrite IH, (Hlast false); done.
Qed.

Lemma universal_newlines_plain (b : pystr) :
  Forall (fun c => c <> 0x0D) b -> universal_newlines false b = b.
Proof.
  induction 1 as [| c b Hc _ IH]; simpl; [done |].
  apply N.eqb_neq in Hc. rewrite Hc, andb_false_r. by rewrite IH.
Qed.

Lemma push_char_nonempty (c : N) (ls : list pystr) : push_char c ls <> [].
Proof. unfold push_char. by destruct (c =? 0x0A), ls. Qed.

Lemma foldr_push_char_app (t : pystr) (X L : list pystr) :
  X <> [] -> foldr push_char (X ++ L) t = foldr push_char X t ++ L.
Proof.
  intros HX. induction t as [| c t IH]; simpl; [done |].
  rewrite IH. assert (Hne : foldr push_char X t <> []).
  { destruct t; simpl; [done | apply push_char_nonempty]. }
  destruct (foldr push_char X t) as [| l ls]; [done |].
  unfold push_char. simpl. by destruct (c =? 0x0A).
Qed.

(** After a complete line the next character starts a new line. *)
Lemma text_lines_app (a b : pystr) :
  (forall c, last a = Some c -> c = 0x0A) ->
  text_lines (a ++ b) = text_lines a ++ text_lines b.
Proof.
  intros Hlast. unfold text_lines. rewrite foldr_app.
  destruct a as [| c t _] using rev_ind; [done |].
  rewrite (Hlast c) by apply last_snoc.
  rewrite !foldr_app. simpl. unfold push_char at 2 4. simpl.
  by rewrite <- foldr_push_char_app.
Qed.

Lemma text_lines_line (j : pystr) :
  Forall (fun c => c <> 0x0A) j -> text_lines (j ++ [0x0A]) = [j ++ [0x0A]].
Proof.
  unfold text_lines. induction 1 as [| c j Hc _ IH]; simpl; [done |].
  rewrite IH. unfold push_char. apply N.eqb_neq in Hc. by rewrite Hc.
Qed.


Lemma universal_newlines_nil (t : pystr) :
  universal_newlines false t = [] -> t = [].
Proof.
  destruct t as [| c t]; simpl; [done |].
  destruct (c =? 0x0D); [done |]. by rewrite andb_false_r.
Qed.

(** Universal newlines change nothing at the end of a text that ends
    with a character other than a line break. *)
Lemma universal_newlines_last (f : bool) (text : pystr) (c : N) :
  last (universal_newlines f text) = Some c -> c <> 0x0A ->
  last text = Some c.
Proof.
  revert f. induction text as [| c0 t IH]; intros f; simpl; [done |].
  intros Hl Hc. rewrite last_cons.
  destruct (c0 =? 0x0D).
  - rewrite last_cons in Hl.
    destruct (last (universal_newlines true t)) eqn:E; [| congruence].
    simplify_eq. by rewrite (IH true).
  - destruct ((c0 =? 0x0A) && f) eqn:E10.
    + by rewrite (IH false).
    + rewrite last_cons in Hl.
      destruct (last (universal_newlines false t)) eqn:E.
      * simplify_eq. by rewrite (IH false).
      * apply last_None, universal_newlines_nil in E. by subst t.
Qed.

Lemma log_lines_file (raw : option bytes) :
  log_lines (Some (file_bytes raw)) = log_lines raw.
Proof. by destruct raw. Qed.

(** A line written by [append_raw] at the end of a complete log is a
    line of its own when the log is read again. *)
Lemma log_lines_append (raw : option bytes) (r : Row) (lines : list pystr) :
  json_round_trip -> complete_log raw ->
  utf8_encode (json_dumps r ++ [0x0A]) = Some (line_bytes r) ->
  log_lines raw = Some lines ->
  log_lines (Some (file_bytes raw ++ line_bytes r))
    = Some (lines ++ [json_dumps r ++ [0x0A]]) /\
  complete_log (Some (file_bytes raw ++ line_bytes r)).
Proof.
  intros Hj (text & Hdec & Hlast) Henc Hlines.
  apply utf8_decode_encode in Henc.
  assert (Hd : utf8_decode (file_bytes raw ++ line_bytes r)
               = Some (text ++ json_dumps r ++ [0x0A])).
  { by rewrite (utf8_decode_app _ _ _ Hdec), Henc. }
  destruct (Hj r) as [_ Hplain]. split.
  - unfold log_lines in Hlines |- *. simpl. rewrite Hd.
    rewrite Hdec in Hlines. simpl in Hlines |- *.
    injection Hlines as <-. f_equal.
    rewrite universal_newlines_app.
    assert (Hst : match last text with Some c => c =? 0x0D | None => false end
                  = false).
    { destruct (last text) as [c |] eqn:E; [| done].
      by rewrite (Hlast c eq_refl). }
    rewrite Hst, (universal_newlines_plain (json_dumps r ++ [0x0A])).
    2:{ apply Forall_app. split; [| by repeat constructor].
        eapply Forall_impl; [exact Hplain |]. by intros ? []. }
    rewrite text_lines_app.
    2:{ intros c Hc. destruct (decide (c = 0x0A)) as [| Hne]; [done |].
        apply Hlast. by apply (universal_newlines_last false). }
    rewrite text_lines_line; [done |].
    eapply Forall_impl; [exact Hplain |]. by intros ? [].
  - exists (text ++ json_dumps r ++ [0x0A]). split; [done |].
    intros c. rewrite app_assoc, last_snoc. by intros [= <-].
Qed.

(** The ids of the log after the rows of a run were appended to it. *)
Lemma log_ids_rows (rows : list Row) :
  forall (raw : option bytes) (ids : list pystr),
  json_round_trip -> complete_log raw ->
  log_ids raw = Some ids ->
  (forall r, r ∈ rows ->
             utf8_encode (json_dumps r ++ [0x0A]) = Some (line_bytes r)) ->
  log_ids (Some (file_bytes raw ++ concat (line_bytes <$> rows)))
    = Some (ids ++ (row_id <$> rows)) /\
  complete_log (Some (file_bytes raw ++ concat (line_bytes <$> rows))).
Proof.
  induction rows as [| r rows IH]; intros raw ids Hj Hc Hids Henc; simpl.
  { rewrite !app_nil_r. split.
    - unfold log_ids. by rewrite log_lines_file.
    - destruct Hc as (text & ? & ?). by exists text. }
  rewrite app_assoc.
  unfold log_ids in Hids.
  destruct (log_lines raw) as [lines |] eqn:El; [| done].
  simpl in Hids. injection Hids as <-.
  destruct (log_lines_append raw r lines) as [Hl' Hc']; auto.
  { apply Henc, list_elem_of_here. }
  destruct (IH (Some (file_bytes raw ++ line_bytes r))
               (omap line_id lines ++ [row_id r])) as [H1 H2]; auto.
  { unfold log_ids. rewrite Hl'. simpl. rewrite omap_app. simpl.
    by rewrite (proj1 (Hj r)). }
  { intros r' Hr'. by apply Henc, list_elem_of_further. }
  split; [| exact H2]. etransitivity; [exact H1 |]. by rewrite <- app_assoc.
Qed.


(** ** A second run *)

Lemma resolve_deterministic (w w' : World) (url : pystr) :
  deterministic_world ->
  (resolve_google_news_to_original w url).1
  = (resolve_google_news_to_original w' url).1.
Proof.
  intros (_ & Hget & _). unfold resolve_google_news_to_original.
  specialize (Hget w w' url).
  destruct (requests_get_soup w url), (requests_get_soup w' url).
  simpl in Hget |- *. by subst.
Qed.

Lemma extract_deterministic (w w' : World) (url : pystr) :
  deterministic_world ->
  (extract_full_text w url).1 = (extract_full_text w' url).1.
Proof.
  intros (_ & _ & Hfetch). unfold extract_full_text.
  specialize (Hfetch w w' url).
  destruct (trafilatura_fetch_url w url), (trafilatura_fetch_url w' url).
  simpl in Hfetch |- *. by subst.
Qed.

Lemma passed_over_later (S S' : gset pystr) (w w' : World) (e : entry) :
  deterministic_world -> S ⊆ S' ->
  passed_over S w e -> passed_over S' w' e.
Proof.
  intros HD Hsub. unfold passed_over.
  rewrite (resolve_deterministic w' w _ HD).
  rewrite (extract_deterministic
             (resolve_google_news_to_original w' (or_empty (entry_link e))).2
             (resolve_google_news_to_original w (or_empty (entry_link e))).2
             _ HD).
  intros [H | (i & Hi & [Hin | Hs])]; [by left | |]; right; exists i; auto.
Qed.

(** An entry that is passed over leaves everything as it is. *)
Lemma process_entry_passes (label : pystr) (added : nat) (s : env) (e : entry) :
  passed_over (seen s) (world s) e ->
  exists s',
    process_entry label added s e
    = (if (TARGET_PER_LABEL <=? added)%nat then Return else Next,
       added, s') /\
    seen s' = seen s /\ raw s' = raw s /\
    appended (trace s') = appended (trace s).
Proof.
  unfold passed_over, process_entry.
  destruct (TARGET_PER_LABEL <=? added)%nat; [by exists s |].
  destruct (or_empty (entry_link e)) as [| c l]; [by exists s |].
  destruct (resolve_google_news_to_original (world s) (c :: l))
    as [orig w1]. cbn [fst snd].
  intros [? | (i & Hi & Hwhy)]; [done |]. rewrite Hi.
  destruct (decide (i ∈ seen s)) as [Hin | Hout].
  { eexists. split; [done |]. simpl. rewrite appended_app. simpl.
    by rewrite app_nil_r. }
  destruct Hwhy as [? | Hshort]; [done |].
  destruct (extract_full_text w1 orig) as [ext w2].
  cbn [fst snd] in Hshort. cbv zeta.
  apply Nat.ltb_lt in Hshort. rewrite Hshort.
  eexists. split; [done |]. simpl. rewrite !appended_app. simpl.
  by rewrite !app_nil_r.
Qed.

(** After a turn that was not cut by an exception the entry is one
    that is passed over. *)
Lemma process_entry_reason (label : pystr) (added : nat) (s : env) (e : entry) :
  (added < TARGET_PER_LABEL)%nat ->
  (process_entry label added s e).1.1 <> Raise ->
  passed_over (seen (process_entry label added s e).2) (world s) e.
Proof.
  intros Hlt. unfold passed_over, process_entry.
  destruct (Nat.leb_spec TARGET_PER_LABEL added) as [| _]; [lia |].
  destruct (or_empty (entry_link e)) as [| c l]; [by left |].
  destruct (resolve_google_news_to_original (world s) (c :: l))
    as [orig w1]. cbn [fst snd].
  destruct (stable_id orig) as [i |]; [| done].
  intros Hsig. right. exists i. split; [done |].
  destruct (decide (i ∈ seen s)) as [Hin | Hout]; [by left |].
  destruct (extract_full_text w1 orig) as [ext w2].
  cbn [fst snd]. cbv zeta in Hsig |- *.
  destruct (Nat.ltb_spec
              (len (fallback_text ext (clean_text (or_empty (entry_title e)))
                      (clean_text (summary_or_description e))))
              MIN_TEXT_LEN) as [Hshort | Hlong]; [by right |].
  left. destruct (urlparse_netloc orig); [| done].
  destruct (utcnow_isoformat w2) as [now w3].
  destruct (append_raw _ _) as [raw' []]; [| done].
  destruct (TARGET_PER_LABEL <=? S added)%nat; simpl; set_solver.
Qed.

Lemma process_entry_settles (label : pystr) (added : nat) (s : env) (e : entry) :
  deterministic_world -> (added < TARGET_PER_LABEL)%nat ->
  (process_entry label added s e).1.1 <> Raise ->
  settled (seen (process_entry label added s e).2) e.
Proof.
  intros HD Hlt Hsig label2 added2 s2 Hsub.
  apply process_entry_passes.
  eapply passed_over_later; [done | exact Hsub |].
  by apply process_entry_reason.
Qed.


Lemma settled_mono (S S' : gset pystr) (e : entry) :
  S ⊆ S' -> settled S e -> settled S' e.
Proof. intros Hsub H label added s Hs. apply H. set_solver. Qed.

Lemma scrape_entries_settles (label : pystr) (entries : list entry) :
  forall (added : nat) (s : env),
  deterministic_world ->
  (scrape_entries label added s entries).1.1 <> Raise ->
  ((scrape_entries label added s entries).1.2 < TARGET_PER_LABEL)%nat ->
  (scrape_entries label added s entries).1.1 = Next /\
  Forall (settled (seen (scrape_entries label added s entries).2)) entries.
Proof.
  induction entries as [| e entries IH]; intros added s HD; simpl.
  { split; [done | constructor]. }
  destruct (process_entry_grows label added s e)
    as (t1 & Hg1 & Ha1 & _ & Hr1 & _).
  pose proof (process_entry_settles label added s e HD) as Hset.
  destruct (process_entry label added s e) as [[sig a1] s1].
  cbn [fst snd] in Hg1, Ha1, Hr1, Hset.
  destruct sig.
  - intros Hsig Hlt.
    destruct (scrape_entries_grows label entries a1 s1)
      as (t2 & Hg2 & Ha2 & _).
    destruct (IH a1 s1 HD Hsig Hlt) as [Hn Hall].
    split; [done |]. constructor; [| done].
    eapply settled_mono; [| apply Hset; [lia | done]].
    rewrite (grows_seen _ _ _ _ Hg2). set_solver.
  - intros _ Hlt. cbn [fst snd] in Hlt. specialize (Hr1 eq_refl). lia.
  - done.
Qed.

Lemma scrape_entries_settled (label : pystr) (S : gset pystr)
    (entries : list entry) :
  forall (added : nat) (s : env),
  Forall (settled S) entries -> S ⊆ seen s ->
  (added < TARGET_PER_LABEL)%nat ->
  exists s',
    scrape_entries label added s entries = (Next, added, s') /\
    seen s' = seen s /\ raw s' = raw s /\
    appended (trace s') = appended (trace s).
Proof.
  induction entries as [| e entries IH]; intros added s Hall Hsub Hlt; simpl.
  { by exists s. }
  apply Forall_cons in Hall as [He Hall].
  destruct (He label added s Hsub) as (s1 & -> & Hs1 & Hr1 & Ht1).
  destruct (Nat.leb_spec TARGET_PER_LABEL added) as [| _]; [lia |].
  destruct (IH added s1 Hall) as (s' & -> & Hs' & Hr' & Ht');
    [by rewrite Hs1 | done |].
  exists s'. split; [done |]. by rewrite Hs', Hr', Ht'.
Qed.

Lemma scrape_queries_settles (label : pystr) (queries : list pystr) :
  forall (added : nat) (s : env),
  deterministic_world -> (added < TARGET_PER_LABEL)%nat ->
  match (scrape_queries label added s queries).1 with
  | Returns n =>
      (n < TARGET_PER_LABEL)%nat ->
      forall q w, q ∈ queries ->
        Forall (settled (seen (scrape_queries label added s queries).2))
          (feedparser_parse w (google_news_rss_url q)).1
  | Raises => True
  end.
Proof.
  induction queries as [| q0 queries IH]; intros added s HD Hlt; simpl.
  { intros _ q w Hq. by apply elem_of_nil in Hq. }
  assert (Hfeed : forall w,
             (feedparser_parse w (google_news_rss_url q0)).1
             = (feedparser_parse (world s) (google_news_rss_url q0)).1)
    by (intros w; apply HD).
  destruct (feedparser_parse (world s) (google_news_rss_url q0))
    as [entries w1]. cbn [fst] in Hfeed.
  set (s1 := Env w1 (seen s) (raw s)
                 (trace s ++ [EvFeed (google_news_rss_url q0)])).
  destruct (scrape_entries_grows label entries added s1)
    as (t1 & Hg1 & Ha1 & _ & Hr1 & Hn1 & _).
  pose proof (scrape_entries_settles label entries added s1 HD) as Hset.
  destruct (scrape_entries label added s1 entries) as [[sig a1] s2].
  cbn [fst snd] in Hg1, Ha1, Hr1, Hn1, Hset.
  destruct sig; [| simpl; intros; specialize (Hr1 eq_refl); lia | done].
  specialize (Hn1 eq_refl Hlt).
  destruct (scrape_queries_grows label queries a1 s2 Hn1)
    as (t2 & Hg2 & _).
  specialize (IH a1 s2 HD Hn1).
  destruct (scrape_queries label a1 s2 queries) as [[n |] s3];
    cbn [fst snd] in Hg2, IH |- *; [| done].
  intros Hn q w [-> | Hq]%elem_of_cons; [| by apply IH].
  rewrite (Hfeed w).
  destruct Hset as [_ Hall]; [done | done |].
  eapply Forall_impl; [exact Hall |].
  intros e. apply settled_mono.
  rewrite (grows_seen _ _ _ _ Hg2). set_solver.
Qed.

Lemma scrape_queries_settled (label : pystr) (S : gset pystr)
    (queries : list pystr) :
  forall (added : nat) (s : env),
  (forall q w, q ∈ queries ->
     Forall (settled S) (feedparser_parse w (google_news_rss_url q)).1) ->
  S ⊆ seen s -> (added < TARGET_PER_LABEL)%nat ->
  exists s',
    scrape_queries label added s queries = (Returns added, s') /\
    seen s' = seen s /\ raw s' = raw s /\
    appended (trace s') = appended (trace s).
Proof.
  induction queries as [| q0 queries IH]; intros added s Hall Hsub Hlt; simpl.
  { by exists s. }
  pose proof (Hall q0 (world s) (list_elem_of_here _ _)) as Hq0.
  destruct (feedparser_parse (world s) (google_news_rss_url q0))
    as [entries w1]. cbn [fst] in Hq0.
  set (s1 := Env w1 (seen s) (raw s)
                 (trace s ++ [EvFeed (google_news_rss_url q0)])).
  destruct (scrape_entries_settled label S entries added s1 Hq0 Hsub Hlt)
    as (s2 & -> & Hs2 & Hr2 & Ht2).
  destruct (IH added s2) as (s3 & -> & Hs3 & Hr3 & Ht3); [| | done |].
  { intros q w Hq. apply Hall. by apply list_elem_of_further. }
  { by rewrite Hs2. }
  exists s3. split; [done |]. rewrite Hs3, Hr3, Ht3, Hs2, Hr2, Ht2.
  subst s1. simpl. rewrite appended_app. simpl. by rewrite app_nil_r.
Qed.


Lemma count_label_app (label : pystr) (l1 l2 : list Row) :
  count_label label (l1 ++ l2)
  = (count_label label l1 + count_label label l2)%nat.
Proof. unfold count_label. by rewrite filter_app, length_app. Qed.

Lemma count_label_all (label : pystr) (l : list Row) :
  (forall r, r ∈ l -> row_label r = label) ->
  count_label label l = length l.
Proof.
  unfold count_label. induction l as [| r l IH]; intros H; [done |].
  rewrite filter_cons_True by apply H, list_elem_of_here.
  simpl. rewrite IH; [done |]. intros r' Hr'.
  by apply H, list_elem_of_further.
Qed.

Lemma scrape_labels_settles (catalog : list (pystr * list pystr)) :
  forall (total : nat) (s : env) (tr : list event),
  deterministic_world ->
  trace (scrape_labels catalog total s).2 = trace s ++ tr ->
  (forall label,
      (count_label label (appended tr) < TARGET_PER_LABEL)%nat) ->
  match (scrape_labels catalog total s).1 with
  | Returns _ =>
      forall label queries q w,
        (label, queries) ∈ catalog -> q ∈ queries ->
        Forall (settled (seen (scrape_labels catalog total s).2))
          (feedparser_parse w (google_news_rss_url q)).1
  | Raises => True
  end.
Proof.
  induction catalog as [| [label0 queries0] catalog IH];
    intros total s tr HD Htr Hcount; simpl.
  { intros label queries q w Hin. by apply elem_of_nil in Hin. }
  simpl in Htr. unfold scrape_label in Htr |- *.
  destruct (scrape_queries_grows label0 queries0 0%nat s quota_positive)
    as (t1 & Hg1 & _ & _ & Hn1).
  pose proof (scrape_queries_settles label0 queries0 0%nat s HD
                quota_positive) as Hset.
  destruct (scrape_queries label0 0%nat s queries0) as [[a |] s1];
    cbn [fst snd] in Hg1, Hn1, Hset, Htr |- *; [| done].
  destruct (scrape_labels_grows catalog (total + a)%nat s1)
    as (t2 & Hg2 & _).
  specialize (IH (total + a)%nat s1 t2 HD (grows_trace _ _ _ _ Hg2)).
  assert (Etr : tr = t1 ++ t2).
  { rewrite (grows_trace _ _ _ _ Hg2), (grows_trace _ _ _ _ Hg1),
      <- app_assoc in Htr. by apply app_inv_head in Htr. }
  subst tr.
  assert (Ha : (a < TARGET_PER_LABEL)%nat).
  { specialize (Hcount label0).
    rewrite appended_app, count_label_app in Hcount.
    rewrite count_label_all in Hcount; [simpl in Hn1; lia |].
    intros r Hr. by apply (grows_rows _ _ _ _ Hg1) in Hr as [? _]. }
  destruct (scrape_labels catalog (total + a)%nat s1) as [[n |] s2];
    cbn [fst snd] in Hg2, IH |- *; [| done].
  intros label queries q w [Heq | Hin]%elem_of_cons Hq.
  - injection Heq as -> ->.
    eapply Forall_impl; [by apply Hset |].
    intros e. apply settled_mono.
    rewrite (grows_seen _ _ _ _ Hg2). set_solver.
  - eapply IH; [| done | done].
    intros l. specialize (Hcount l).
    rewrite appended_app, count_label_app in Hcount. lia.
Qed.

Lemma scrape_labels_settled (S : gset pystr)
    (catalog : list (pystr * list pystr)) :
  forall (total : nat) (s : env),
  (forall label queries q w,
      (label, queries) ∈ catalog -> q ∈ queries ->
      Forall (settled S) (feedparser_parse w (google_news_rss_url q)).1) ->
  S ⊆ seen s ->
  exists s',
    scrape_labels catalog total s = (Returns total, s') /\
    seen s' = seen s /\ raw s' = raw s /\
    appended (trace s') = appended (trace s).
Proof.
  induction catalog as [| [label0 queries0] catalog IH];
    intros total s Hall Hsub; simpl.
  { by exists s. }
  unfold scrape_label.
  destruct (scrape_queries_settled label0 S queries0 0%nat s)
    as (s1 & -> & Hs1 & Hr1 & Ht1); [| done | apply quota_positive |].
  { intros q w Hq. eapply Hall; [apply list_elem_of_here | done]. }
  rewrite Nat.add_0_r.
  destruct (IH total s1) as (s2 & -> & Hs2 & Hr2 & Ht2).
  { intros label queries q w Hin Hq.
    eapply Hall; [by apply list_elem_of_further | done]. }
  { by rewrite Hs1. }
  exists s2. split; [done |]. by rewrite Hs2, Hr2, Ht2.
Qed.


Lemma log_ids_file (raw : option bytes) :
  log_ids (Some (file_bytes raw)) = log_ids raw.
Proof. by destruct raw. Qed.

(** What [run] keeps of the loop over the labels. *)
Lemma run_scrape (fs : files) (w : World) (seen0 : gset pystr) :
  load_seen_ids (raw_jsonl fs) = Returns seen0 ->
  res_trace (run fs w)
    = trace (scrape_labels LABEL_QUERIES 0%nat
               (Env w seen0 (raw_jsonl fs) [])).2 /\
  raw_jsonl (res_files (run fs w))
    = raw (scrape_labels LABEL_QUERIES 0%nat
             (Env w seen0 (raw_jsonl fs) [])).2 /\
  res_world (run fs w)
    = world (scrape_labels LABEL_QUERIES 0%nat
               (Env w seen0 (raw_jsonl fs) [])).2 /\
  (forall n, res_total (run fs w) = Returns n ->
             (scrape_labels LABEL_QUERIES 0%nat
                (Env w seen0 (raw_jsonl fs) [])).1 = Returns n).
Proof.
  intros Hl. unfold run. rewrite Hl.
  destruct (scrape_labels LABEL_QUERIES 0%nat (Env w seen0 (raw_jsonl fs) []))
    as [[total |] s']; simpl; [| done].
  destruct (rebuild_csv (Files (raw s') (processed_csv fs))) as [fs2 |] eqn:E;
    simpl; [apply rebuild_csv_log in E |]; done.
Qed.

(** ** No id twice *)

(** C1, as the code has it.  Let [json.loads] read back what
    [json.dumps] wrote, and let the log decode and end with a complete
    line.  Then a run leaves a log whose ids are those it found followed
    by the ids of the rows it appended; none of these was in the log,
    and they are pairwise distinct, so that a log without a repeated id
    stays one.  If moreover the answers of the network do not depend on
    the time of the request, the run returned and no label reached its
    quota, then a second run, started from the files and the world that
    the first one left, appends nothing and leaves the log as it is. *)
Theorem second_run_appends_nothing (fs : files) (w : World) :
  json_round_trip -> complete_log (raw_jsonl fs) ->
  let r1 := run fs w in
  let r2 := run (res_files r1) (res_world r1) in
  (exists ids,
      log_ids (raw_jsonl fs) = Some ids /\
      log_ids (raw_jsonl (res_files r1))
        = Some (ids ++ (row_id <$> appended (res_trace r1))) /\
      (forall r, r ∈ appended (res_trace r1) -> row_id r ∉ ids) /\
      NoDup (row_id <$> appended (res_trace r1)) /\
      (NoDup ids ->
       NoDup (ids ++ (row_id <$> appended (res_trace r1))))) /\
  (deterministic_world ->
   (exists n, res_total r1 = Returns n) ->
   (forall label,
       (count_label label (appended (res_trace r1))
        < TARGET_PER_LABEL)%nat) ->
   appended (res_trace r2) = [] /\
   raw_jsonl (res_files r2) = raw_jsonl (res_files r1)).
Proof.
  intros Hj Hc r1 r2.
  assert (Hids : exists ids, log_ids (raw_jsonl fs) = Some ids).
  { destruct Hc as (text & Hdec & _). unfold log_ids, log_lines.
    rewrite Hdec. simpl. eauto. }
  destruct Hids as [ids Hids].
  pose proof (load_seen_ids_spec (raw_jsonl fs)) as Hload.
  rewrite Hids in Hload.
  pose proof (run_grows fs w) as Hrun. rewrite Hload in Hrun.
  destruct Hrun as (s' & Hg & Hraw & Hw). fold r1 in Hg, Hraw, Hw.
  destruct (log_ids_rows (appended (res_trace r1)) (raw_jsonl fs) ids Hj Hc Hids)
    as [Hids' Hc'].
  { intros r Hr.
    by apply (grows_rows _ _ _ _ Hg) in Hr as [_ (_ & _ & _ & Henc)]. }
  pose proof (grows_raw _ _ _ _ Hg) as Hbytes. simpl in Hbytes.
  rewrite <- Hbytes, <- Hraw in Hids', Hc'. rewrite log_ids_file in Hids'.
  assert (Hfresh : forall r, r ∈ appended (res_trace r1) -> row_id r ∉ ids).
  { intros r Hr Hin. apply (grows_fresh _ _ _ _ Hg) in Hr. simpl in Hr.
    apply Hr. by apply elem_of_list_to_set. }
  split.
  { exists ids. split_and!; [done | done | done | apply Hg |].
    intros Hnd. apply NoDup_app. split_and!; [done | | apply Hg].
    intros i Hi (r & -> & Hr)%list_elem_of_fmap. by apply (Hfresh r). }
  intros HD [n Hn] Hcount.
  destruct (run_scrape fs w _ Hload) as (Ht1 & Hr1 & Hw1 & Hn1).
  fold r1 in Ht1, Hr1, Hw1, Hn1. specialize (Hn1 n Hn).
  pose proof (scrape_labels_settles LABEL_QUERIES 0%nat
                (Env w (list_to_set ids) (raw_jsonl fs) [])
                (res_trace r1) HD) as Hset.
  specialize (Hset (eq_sym Ht1) Hcount). rewrite Hn1 in Hset.
  pose proof (load_seen_ids_spec (raw_jsonl (res_files r1))) as Hload2.
  rewrite Hids' in Hload2.
  destruct (run_scrape (res_files r1) (res_world r1) _ Hload2)
    as (Ht2 & Hr2 & _). fold r2 in Ht2, Hr2.
  destruct (scrape_labels_settled
              (seen (scrape_labels LABEL_QUERIES 0%nat
                       (Env w (list_to_set ids) (raw_jsonl fs) [])).2)
              LABEL_QUERIES 0%nat
              (Env (res_world r1)
                 (list_to_set (ids ++ (row_id <$> appended (res_trace r1))))
                 (raw_jsonl (res_files r1)) []))
    as (s2 & Hs2 & _ & Hraw2 & Htr2).
  { exact Hset. }
  { destruct (scrape_labels_grows LABEL_QUERIES 0%nat
                (Env w (list_to_set ids) (raw_jsonl fs) []))
      as (tr & Hg' & _).
    pose proof (grows_trace _ _ _ _ Hg') as Htrace.
    rewrite <- Ht1 in Htrace. cbn [trace app] in Htrace. subst tr.
    rewrite (grows_seen _ _ _ _ Hg'). cbn [seen].
    rewrite list_to_set_app_L. set_solver. }
  rewrite Hs2 in Ht2, Hr2. simpl in Ht2, Hr2, Hraw2, Htr2.
  rewrite Ht2, Hr2. done.
Qed.


(** ** Cleaning a text *)

Lemma rstrip_snoc (s : pystr) (c : N) :
  rstrip (s ++ [c]) = if is_space c then rstrip s else s ++ [c].
Proof.
  unfold rstrip. rewrite foldr_app. simpl.
  destruct (is_space c); [done |].
  induction s as [| d s IH]; simpl; [done |].
  rewrite IH. by destruct s.
Qed.

Lemma strip_rstrip (s : pystr) : strip s = rstrip (lstrip s).
Proof.
  unfold strip. generalize (lstrip s). clear s. intros s.
  induction s as [| c s IH] using rev_ind; [done |].
  rewrite rev_unit, rstrip_snoc. simpl.
  destruct (is_space c); [done |].
  simpl. by rewrite rev_involutive.
Qed.

Lemma sub_spaces_loose (s : pystr) (b : bool) :
  loose (sub_spaces b s) = true /\
  (b = true ->
   match sub_spaces b s with c :: _ => is_space c = false | [] => True end).
Proof.
  revert b. induction s as [| c s IH]; intros b; simpl; [done |].
  destruct (is_space c) eqn:Ec.
  - destruct b; [apply IH |].
    destruct (IH true) as [H1 H2]. specialize (H2 eq_refl).
    split; [| done]. simpl. rewrite H1.
    destruct (sub_spaces true s); [done |]. by rewrite H2.
  - destruct (IH false) as [H1 _]. split; [| done].
    simpl. by rewrite Ec, H1.
Qed.

Lemma loose_tail (c : N) (s : pystr) : loose (c :: s) = true -> loose s = true.
Proof. simpl. by intros [_ ?]%andb_prop. Qed.

Lemma lstrip_loose (s : pystr) :
  loose s = true ->
  loose (lstrip s) = true /\
  match lstrip s with c :: _ => is_space c = false | [] => True end.
Proof.
  induction s as [| c s IH]; [done |].
  intros H. cbn [lstrip]. destruct (is_space c) eqn:Ec.
  - apply IH. by apply loose_tail in H.
  - done.
Qed.

Lemma rstrip_head (s : pystr) (d : N) (a : pystr) :
  rstrip s = d :: a -> exists rest, s = d :: rest.
Proof.
  destruct s as [| c s]; [done |]. unfold rstrip. simpl.
  destruct (foldr _ [] s); [destruct (is_space c) |]; intros [= <- _]; eauto.
Qed.

Lemma rstrip_tidy (s : pystr) :
  loose s = true ->
  match s with c :: _ => is_space c = false | [] => True end ->
  tidy (rstrip s) = true.
Proof.
  intros Hl Hh.
  assert (H1 : loose (rstrip s) = true /\
               match last (rstrip s) with
               | Some c => is_space c = false
               | None => True
               end).
  { clear Hh. induction s as [| c s IH]; [done |].
    destruct (IH (loose_tail _ _ Hl)) as [IH1 IH2].
    change (rstrip (c :: s))
      with (match rstrip s with
            | [] => if is_space c then [] else [c]
            | _ => c :: rstrip s
            end).
    destruct (rstrip s) as [| d a] eqn:Er.
    - destruct (is_space c) eqn:Ec; [done |]. simpl. by rewrite Ec.
    - destruct (rstrip_head _ _ _ Er) as [rest ->].
      split; [| by rewrite last_cons_cons].
      simpl in Hl |- *. apply andb_prop in Hl as [Hc _].
      rewrite Hc. exact IH1. }
  destruct H1 as [H1 H2]. unfold tidy. rewrite H1. simpl.
  apply andb_true_intro. split.
  - destruct (rstrip s) as [| d a] eqn:Er; [done |].
    destruct (rstrip_head _ _ _ Er) as [rest ->]. by rewrite Hh.
  - destruct (last (rstrip s)); [by rewrite H2 | done].
Qed.

Lemma clean_text_is_tidy (s : pystr) : tidy (clean_text s) = true.
Proof.
  unfold clean_text. rewrite strip_rstrip.
  destruct (lstrip_loose (sub_spaces false s)) as [H1 H2].
  { apply sub_spaces_loose. }
  by apply rstrip_tidy.
Qed.


Lemma sub_spaces_fixed (s : pystr) (b : bool) :
  loose s = true ->
  (b = true -> match s with c :: _ => is_space c = false | [] => True end) ->
  sub_spaces b s = s.
Proof.
  revert b. induction s as [| c s IH]; intros b Hl Hb; [done |].
  simpl in Hl |- *. apply andb_prop in Hl as [Hc Hl].
  destruct (is_space c) eqn:Ec.
  - destruct b; [by specialize (Hb eq_refl) |].
    simpl in Hc. apply andb_prop in Hc as [->%N.eqb_eq Hd]. f_equal.
    apply IH; [done |]. intros _.
    destruct s; [done | by apply negb_true_iff in Hd].
  - f_equal. by apply IH.
Qed.

Lemma rstrip_fixed (s : pystr) :
  match last s with Some c => is_space c = false | None => True end ->
  rstrip s = s.
Proof.
  destruct s as [| c s _] using rev_ind; [done |].
  rewrite last_snoc, rstrip_snoc. by intros ->.
Qed.

Lemma tidy_fixed (s : pystr) : tidy s = true -> clean_text s = s.
Proof.
  unfold tidy. intros [[Hl Hh]%andb_prop Hlast]%andb_prop.
  unfold clean_text. rewrite strip_rstrip, sub_spaces_fixed by done.
  assert (Hs : lstrip s = s).
  { destruct s as [| c s]; [done |]. simpl.
    apply negb_true_iff in Hh. by rewrite Hh. }
  rewrite Hs. apply rstrip_fixed.
  destruct (last s); [by apply negb_true_iff | done].
Qed.

Lemma sub_spaces_words (s : pystr) (b : bool) :
  filter (fun c => is_space c = false) (sub_spaces b s)
  = filter (fun c => is_space c = false) s.
Proof.
  revert b. induction s as [| c s IH]; intros b; simpl; [done |].
  destruct (is_space c) eqn:Ec.
  - rewrite (filter_cons_False _ c s) by (by rewrite Ec).
    destruct b; [apply IH |].
    rewrite filter_cons_False by done. apply IH.
  - rewrite !filter_cons_True by done. by rewrite IH.
Qed.

Lemma lstrip_words (s : pystr) :
  filter (fun c => is_space c = false) (lstrip s)
  = filter (fun c => is_space c = false) s.
Proof.
  induction s as [| c s IH]; simpl; [done |].
  destruct (is_space c) eqn:Ec; [| done].
  rewrite filter_cons_False by (by rewrite Ec). done.
Qed.

Lemma rstrip_words (s : pystr) :
  filter (fun c => is_space c = false) (rstrip s)
  = filter (fun c => is_space c = false) s.
Proof.
  induction s as [| c s IH] using rev_ind; [done |].
  rewrite rstrip_snoc. destruct (is_space c) eqn:Ec; [| done].
  rewrite filter_app, IH, filter_cons_False by (by rewrite Ec).
  by rewrite filter_nil, app_nil_r.
Qed.

Lemma clean_text_words (s : pystr) :
  filter (fun c => is_space c = false) (clean_text s)
  = filter (fun c => is_space c = false) s.
Proof.
  unfold clean_text.
  by rewrite strip_rstrip, rstrip_words, lstrip_words, sub_spaces_words.
Qed.

Lemma sub_spaces_length (s : pystr) (b : bool) :
  (length (sub_spaces b s) <= length s)%nat.
Proof.
  revert b. induction s as [| c s IH]; intros b; simpl; [done |].
  destruct (is_space c); [destruct b |]; simpl;
    [pose proof (IH true) | pose proof (IH true) | pose proof (IH false)]; lia.
Qed.

Lemma lstrip_length (s : pystr) : (length (lstrip s) <= length s)%nat.
Proof.
  induction s as [| c s IH]; simpl; [done |].
  destruct (is_space c); simpl; lia.
Qed.

Lemma rstrip_length (s : pystr) : (length (rstrip s) <= length s)%nat.
Proof.
  induction s as [| c s IH] using rev_ind; [done |].
  rewrite rstrip_snoc, length_app. simpl.
  destruct (is_space c); [lia | rewrite length_app; simpl; lia].
Qed.

(** X1. [clean_text] gives a text in which the words are separated by single
    spaces and no white space stands at either end, and which is not
    longer than the text it was given. *)
Theorem clean_text_normal_form (s : pystr) :
  tidy (clean_text s) = true /\ (len (clean_text s) <= len s)%nat.
Proof.
  split; [apply clean_text_is_tidy |].
  unfold clean_text, len. rewrite strip_rstrip.
  pose proof (rstrip_length (lstrip (sub_spaces false s))).
  pose proof (lstrip_length (sub_spaces false s)).
  pose proof (sub_spaces_length s false). lia.
Qed.

(** X2. Cleaning twice is cleaning once, and the texts that [clean_text]
    leaves as they are are those in its normal form. *)
Theorem clean_text_idempotent (s : pystr) :
  clean_text (clean_text s) = clean_text s /\
  (clean_text s = s <-> tidy s = true).
Proof.
  split; [apply tidy_fixed, clean_text_is_tidy |]. split.
  - intros <-. apply clean_text_is_tidy.
  - apply tidy_fixed.
Qed.

(** X3. [clean_text] changes white space only: the other characters are
    kept, in their order; and the result is empty exactly when there is
    no other character. *)
Theorem clean_text_keeps_words (s : pystr) :
  filter (fun c => is_space c = false) (clean_text s)
  = filter (fun c => is_space c = false) s /\
  (clean_text s = [] <-> forallb is_space s = true).
Proof.
  split; [apply clean_text_words |].
  pose proof (clean_text_words s) as Hw.
  pose proof (clean_text_is_tidy s) as Ht.
  split.
  - intros E. rewrite E in Hw. simpl in Hw.
    apply forallb_forall. intros c Hc.
    destruct (is_space c) eqn:Ec; [done |].
    assert (Hin : c ∈ filter (fun c => is_space c = false) s).
    { apply list_elem_of_filter. split; [done |]. by apply list_elem_of_In. }
    rewrite <- Hw in Hin. by apply elem_of_nil in Hin.
  - intros Hall. destruct (clean_text s) as [| c t] eqn:E; [done |].
    unfold tidy in Ht. apply andb_prop in Ht as [[_ Hh]%andb_prop _].
    apply negb_true_iff in Hh.
    assert (Hin : c ∈ filter (fun c => is_space c = false) s).
    { rewrite <- Hw. rewrite filter_cons_True by done. apply list_elem_of_here. }
    apply list_elem_of_filter in Hin as [_ Hin].
    rewrite forallb_forall in Hall.
    apply list_elem_of_In, Hall in Hin. congruence.
Qed.


(** ** The feed URL *)

(** X4. In the URL of a feed the spaces of the query are written as [+] and
    nothing else is escaped: the URL has no space, it is as long as the
    query and the fixed text around it, every other character of the
    query is in it, and a query in which the spaces are already written
    as [+] has the same URL. *)
Theorem google_news_rss_url_shape (q : pystr) :
  0x20 ∉ google_news_rss_url q /\
  len (google_news_rss_url q) = (len q + 63)%nat /\
  (forall c, c ∈ q -> c <> 0x20 -> c ∈ google_news_rss_url q) /\
  google_news_rss_url (replace_char 0x20 0x2B q) = google_news_rss_url q.
Proof.
  unfold google_news_rss_url, replace_char. split_and!.
  - assert (Hfix : forall t : pystr,
               forallb (fun c => negb (c =? 0x20)) t = true -> 0x20 ∉ t).
    { intros t Ht Hin. rewrite forallb_forall in Ht.
      apply list_elem_of_In, Ht in Hin. done. }
    intros [H | [H | H]%elem_of_app]%elem_of_app.
    + by apply Hfix in H.
    + apply list_elem_of_fmap in H as (c & Hc & _).
      destruct (N.eqb_spec c 0x20); [done | congruence].
    + by apply Hfix in H.
  - unfold len. rewrite !length_app, length_map. simpl. lia.
  - intros c Hc Hne. apply elem_of_app. right. apply elem_of_app. left.
    apply list_elem_of_fmap. exists c. split; [| done].
    by destruct (N.eqb_spec c 0x20).
  - do 2 f_equal. rewrite map_map. apply map_ext. intros c.
    destruct (c =? 0x20) eqn:E; [done | by rewrite E].
Qed.

(** ** Where the identity function is defined *)

Lemma utf8_encode_char_scalar (c : N) (b : bytes) :
  utf8_encode_char c = Some b -> scalar c = true.
Proof.
  unfold utf8_encode_char. intros H.
  assert (Hlow : forall d, d < 0xD800 -> is_surrogate d = false).
  { intros d Hd. unfold is_surrogate. apply andb_false_iff. left.
    by apply N.leb_gt. }
  assert (Hhigh : forall d, 0xDFFF < d -> is_surrogate d = false).
  { intros d Hd. unfold is_surrogate. apply andb_false_iff. right.
    by apply N.leb_gt. }
  assert (Hs : c < 0x110000 /\ is_surrogate c = false).
  { destruct (N.ltb_spec c 0x80); [split; [| apply Hlow]; lia |].
    destruct (N.ltb_spec c 0x800); [split; [| apply Hlow]; lia |].
    destruct (N.ltb_spec c 0x10000).
    { destruct (is_surrogate c); [done |]. split; [lia | done]. }
    destruct (N.ltb_spec c 0x110000); [| done].
    split; [done | apply Hhigh; lia]. }
  destruct Hs as [H1 H2]. unfold scalar. rewrite H2.
  apply N.ltb_lt in H1. by rewrite H1.
Qed.

(** X5. [stable_id] returns for the URLs made of Unicode scalar values, and
    raises for the others, those with a surrogate. *)
Theorem stable_id_defined (u : pystr) :
  is_Some (stable_id u) <-> forallb scalar u = true.
Proof.
  unfold stable_id. rewrite fmap_is_Some. split; [| apply utf8_encode_scalar].
  induction u as [| c u IH]; simpl; [done |].
  destruct (utf8_encode_char c) as [b |] eqn:Ec; [| by intros [? ?]].
  destruct (utf8_encode u) as [bs |]; [| by intros [? ?]].
  intros _. rewrite (utf8_encode_char_scalar c b Ec). apply IH. eauto.
Qed.

(** ** Text extractor *)

(** X6. [extract_full_text] asks for one download and returns a text in the
    normal form of [clean_text]; the text is empty when the download
    raises or gives nothing, and when the extraction raises. *)
Theorem extract_full_text_clean (w : World) (url : pystr) :
  tidy (extract_full_text w url).1 = true /\
  clean_text (extract_full_text w url).1 = (extract_full_text w url).1 /\
  (extract_full_text w url).2 = (trafilatura_fetch_url w url).2 /\
  match (trafilatura_fetch_url w url).1 with
  | Returns (Some (c :: page)) =>
      match trafilatura_extract (c :: page) with
      | Returns text =>
          (extract_full_text w url).1 = clean_text (default [] text)
      | Raises => (extract_full_text w url).1 = []
      end
  | _ => (extract_full_text w url).1 = []
  end.
Proof.
  assert (Ht : tidy (extract_full_text w url).1 = true).
  { unfold extract_full_text.
    destruct (trafilatura_fetch_url w url) as [[[[| c page] |] |] w']; simpl;
      try done.
    destruct (trafilatura_extract (c :: page)); [| done].
    apply clean_text_is_tidy. }
  split; [done |]. split; [by apply tidy_fixed |].
  unfold extract_full_text.
  destruct (trafilatura_fetch_url w url) as [[[[| c page] |] |] w']; simpl;
    try done.
  split; [done |]. by destruct (trafilatura_extract (c :: page)).
Qed.

(** ** What the resolver can return *)

(** X7. The resolver makes one request, and what it returns is the URL it
    was given or the [href] of a [link] or of an [a] element of the page
    it received. *)
Theorem resolve_input_or_href (w : World) (url : pystr) :
  (resolve_google_news_to_original w url).2 = (requests_get_soup w url).2 /\
  ((resolve_google_news_to_original w url).1 = url \/
   exists page e,
     (requests_get_soup w url).1 = Returns page /\ e ∈ page /\
     href e = Some (resolve_google_news_to_original w url).1 /\
     (tag e = py "link" \/ tag e = py "a")).
Proof.
  unfold resolve_google_news_to_original.
  destruct (requests_get_soup w url) as [[page |] w']; simpl;
    [| by split; [| left]].
  split; [done |].
  pose proof (find_original_cases page) as H.
  destruct (find_original page) as [h |]; [| by left].
  right. exists page.
  destruct H as [(pre & canon & post & -> & _ & Hc & Hh & _)
                | (_ & before & after & Ha & _)].
  - exists canon. split_and!; [done | | done |].
    + apply elem_of_app. right. apply list_elem_of_here.
    + left. unfold is_canonical_link in Hc.
      apply andb_prop in Hc as [Hc _]. by apply bool_decide_eq_true in Hc.
  - assert (Hin : h ∈ anchor_hrefs page).
    { rewrite Ha. apply elem_of_app. right. apply list_elem_of_here. }
    unfold anchor_hrefs in Hin.
    apply list_elem_of_omap in Hin as (e & He & Hh).
    exists e. case_bool_decide; [| done]. auto.
Qed.


(** ** The ledger and the log *)

(** X8. [load_seen_ids] returns the empty set when there is no log; when the
    log decodes, it returns exactly the ids of the lines that parse and
    have an id; and it raises when the log does not decode. *)
Theorem load_seen_ids_exact (raw : option bytes) :
  match log_lines raw with
  | Some lines =>
      exists S,
        load_seen_ids raw = Returns S /\
        (raw = None -> S = ∅) /\
        forall i,
          i ∈ S <->
          exists line o,
            line ∈ lines /\ json_loads line = Some o /\ o !! py "id" = Some i
  | None => load_seen_ids raw = Raises /\ raw <> None
  end.
Proof.
  destruct raw as [bs |]; unfold log_lines, load_seen_ids; simpl.
  - destruct (utf8_decode bs) as [text |]; simpl; [| done].
    eexists. split; [done |]. split; [done |]. intros i.
    rewrite foldl_add_line_id. split; [| auto].
    by intros [[]%elem_of_empty | H].
  - exists ∅. split; [done |]. split; [done |]. intros i. split.
    + by intros []%elem_of_empty.
    + by intros (? & ? & []%elem_of_nil & _).
Qed.

(** X9. What [append_raw] writes, [load_seen_ids] reads: after a row was
    appended to a log that ends with a complete line, the ledger that is
    loaded is the one of before with the id of the row, and the log ends
    with a complete line again. *)
Theorem append_then_load (row : Row) (raw : option bytes) (S : gset pystr) :
  json_round_trip -> complete_log raw ->
  load_seen_ids raw = Returns S ->
  (append_raw row raw).2 = true ->
  load_seen_ids (append_raw row raw).1 = Returns ({[ row_id row ]} ∪ S) /\
  complete_log (append_raw row raw).1.
Proof.
  intros Hj Hc Hload. unfold append_raw.
  destruct (utf8_encode (json_dumps row ++ [0x0A])) as [line |] eqn:E;
    [intros _ | done].
  cbn [fst].
  assert (Hline : utf8_encode (json_dumps row ++ [0x0A])
                  = Some (line_bytes row)).
  { unfold line_bytes. by rewrite E. }
  assert (El : line = line_bytes row) by (unfold line_bytes; by rewrite E).
  subst line.
  rewrite load_seen_ids_spec in Hload. unfold log_ids in Hload.
  destruct (log_lines raw) as [lines |] eqn:Elines; [| done].
  simpl in Hload. injection Hload as <-.
  destruct (log_lines_append raw row lines Hj Hc Hline Elines) as [H1 H2].
  split; [| exact H2].
  rewrite load_seen_ids_spec. unfold log_ids.
  change (default [] raw) with (file_bytes raw). rewrite H1. simpl.
  rewrite omap_app. simpl. rewrite (proj1 (Hj row)). f_equal.
  rewrite list_to_set_app_L. set_solver.
Qed.

(** X10. [append_raw] only adds at the end of the log, which exists
    afterwards: when the write succeeds, what is added decodes to the
    line of the row and its newline; when the line cannot be encoded,
    nothing is added. *)
Theorem append_raw_appends (row : Row) (raw : option bytes) :
  (append_raw row raw).1 <> None /\
  exists suffix,
    file_bytes (append_raw row raw).1 = file_bytes raw ++ suffix /\
    if (append_raw row raw).2
    then utf8_decode suffix = Some (json_dumps row ++ [0x0A])
    else suffix = [] /\ utf8_encode (json_dumps row ++ [0x0A]) = None.
Proof.
  unfold append_raw.
  destruct (utf8_encode (json_dumps row ++ [0x0A])) as [line |] eqn:E; simpl.
  - split; [done |]. exists line. split; [done |].
    by apply utf8_decode_encode.
  - split; [done |]. exists []. by rewrite app_nil_r.
Qed.

(** X11. [scrape_label] updates the ledger it was given: afterwards the
    ledger holds what it held and the ids of the rows appended by the
    call; these rows have the label of the call, ids that the ledger did
    not hold and that are pairwise distinct, and their lines are what
    the log gained. *)
Theorem scrape_label_ledger (label : pystr) (queries : list pystr) (s : env) :
  exists tr,
    trace (scrape_label label queries s).2 = trace s ++ tr /\
    seen (scrape_label label queries s).2
    = list_to_set (row_id <$> appended tr) ∪ seen s /\
    NoDup (row_id <$> appended tr) /\
    (forall r, r ∈ appended tr ->
       row_label r = label /\ row_id r ∉ seen s /\
       stable_id (row_url r) = Some (row_id r)) /\
    file_bytes (raw (scrape_label label queries s).2)
    = file_bytes (raw s) ++ concat (line_bytes <$> appended tr).
Proof.
  unfold scrape_label.
  destruct (scrape_queries_grows label queries 0%nat s quota_positive)
    as (tr & Hg & _).
  exists tr. split_and!; try apply Hg.
  intros r Hr. pose proof (grows_fresh _ _ _ _ Hg r Hr) as Hf.
  apply (grows_rows _ _ _ _ Hg) in Hr as (Hl & _ & Hid & _). done.
Qed.

Lemma scrape_labels_bound (catalog : list (pystr * list pystr)) :
  forall (total : nat) (s : env),
  exists tr,
    trace (scrape_labels catalog total s).2 = trace s ++ tr /\
    (length (appended tr) <= length catalog * TARGET_PER_LABEL)%nat /\
    match (scrape_labels catalog total s).1 with
    | Returns n => n = (total + length (appended tr))%nat
    | Raises => True
    end.
Proof.
  induction catalog as [| [label queries] catalog IH]; intros total s.
  { exists []. simpl. by rewrite app_nil_r, Nat.add_0_r. }
  cbn [scrape_labels length]. unfold scrape_label.
  destruct (scrape_queries_grows label queries 0%nat s quota_positive)
    as (t1 & Hg1 & _ & Hb1 & Hn1).
  destruct (scrape_queries label 0%nat s queries) as [[added |] s1];
    cbn [fst snd] in Hg1, Hn1 |- *.
  - destruct (IH (total + added)%nat s1) as (t2 & Ht2 & Hb2 & Hn2).
    exists (t1 ++ t2). split_and!.
    + by rewrite Ht2, (grows_trace _ _ _ _ Hg1), app_assoc.
    + rewrite appended_app, length_app, Nat.mul_succ_l. lia.
    + destruct (scrape_labels catalog (total + added)%nat s1).1; [| done].
      rewrite appended_app, length_app. lia.
  - exists t1. split_and!; [apply Hg1 | rewrite Nat.mul_succ_l; lia | done].
Qed.

(** X12. The total that [run] reports is the number of the rows it appended,
    and a run appends at most [TARGET_PER_LABEL] rows for each label of
    the catalog. *)
Theorem run_total_bounded (fs : files) (w : World) :
  (length (appended (res_trace (run fs w)))
   <= length LABEL_QUERIES * TARGET_PER_LABEL)%nat /\
  match res_total (run fs w) with
  | Returns n => n = length (appended (res_trace (run fs w)))
  | Raises => True
  end.
Proof.
  unfold run.
  destruct (load_seen_ids (raw_jsonl fs)) as [seen0 |];
    [| simpl; split; [lia | done]].
  destruct (scrape_labels_bound LABEL_QUERIES 0%nat
              (Env w seen0 (raw_jsonl fs) [])) as (tr & Ht & Hb & Hn).
  destruct (scrape_labels LABEL_QUERIES 0%nat (Env w seen0 (raw_jsonl fs) []))
    as [[total |] s']; cbn [fst snd] in Ht, Hn.
  - cbn [trace app] in Ht. subst tr.
    destruct (rebuild_csv (Files (raw s') (processed_csv fs))); simpl;
      split; done.
  - cbn [trace app] in Ht. subst tr. simpl. split; done.
Qed.


(** ** The table *)

(** X13. The table that [rebuild_csv] makes of a frame has the columns
    of [cols], rows of that width, and one row for each row that
    [drop_duplicates] keeps, whose first cell is the id of that row as
    [to_csv] writes it; the rows that are kept have pairwise distinct
    ids, which are the ids of the frame, as [pandas] holds them. *)
Theorem project_rows (df : frame cell) :
  header (project df) = cols /\
  Forall (fun row => length row = length cols) (rows (project df)) /\
  length (rows (project df)) = length (kept_rows df) /\
  (length (kept_rows df) <= length (frame_rows df))%nat /\
  head <$> rows (project df)
  = (fun r => Some (to_csv_cell (r (py "id")))) <$> kept_rows df /\
  NoDup ((fun r : pystr -> cell => r (py "id")) <$> kept_rows df) /\
  (forall k, k ∈ (fun r : pystr -> cell => r (py "id")) <$> kept_rows df
             <-> k ∈ (fun r : pystr -> cell => r (py "id"))
                     <$> frame_rows df).
Proof.
  split; [done |]. unfold project. cbn [rows]. split_and!.
  - apply Forall_forall. intros row (r & -> & _)%list_elem_of_fmap.
    unfold select_cols. by rewrite !length_map.
  - by rewrite length_map.
  - apply drop_duplicates_length.
  - induction (kept_rows df) as [| r l IH]; [done |].
    cbn [map fmap list_fmap]. f_equal. exact IH.
  - apply drop_duplicates_NoDup.
  - intros k. apply drop_duplicates_keys.
Qed.

(** ** The rows that are written *)

Section Rows.
Variable Q : Row -> Prop.
Hypothesis step :
  forall label added s e r,
    r ∈ appended (trace (process_entry label added s e).2) ->
    r ∈ appended (trace s) \/ Q r.

Lemma scrape_entries_rows (label : pystr) (entries : list entry) :
  forall added s r,
    r ∈ appended (trace (scrape_entries label added s entries).2) ->
    r ∈ appended (trace s) \/ Q r.
Proof.
  induction entries as [| e entries IH]; intros added s r; simpl; [auto |].
  pose proof (step label added s e r) as Hstep.
  destruct (process_entry label added s e) as [[sig a1] s1].
  cbn [snd] in Hstep. destruct sig; cbn [snd]; [| done | done].
  intros [H | H]%IH; auto.
Qed.

Lemma scrape_queries_rows (label : pystr) (queries : list pystr) :
  forall added s r,
    r ∈ appended (trace (scrape_queries label added s queries).2) ->
    r ∈ appended (trace s) \/ Q r.
Proof.
  induction queries as [| q queries IH]; intros added s r; simpl; [auto |].
  destruct (feedparser_parse (world s) (google_news_rss_url q))
    as [entries w1].
  pose proof (scrape_entries_rows label entries added
                (Env w1 (seen s) (raw s)
                   (trace s ++ [EvFeed (google_news_rss_url q)])) r) as H1.
  destruct (scrape_entries label added _ entries) as [[sig a1] s1].
  cbn [snd trace] in H1. rewrite appended_app in H1. simpl in H1.
  rewrite app_nil_r in H1.
  destruct sig; cbn [snd]; [| done | done].
  intros [H | H]%IH; auto.
Qed.

Lemma scrape_labels_rows (catalog : list (pystr * list pystr)) :
  forall total s r,
    r ∈ appended (trace (scrape_labels catalog total s).2) ->
    r ∈ appended (trace s) \/ Q r.
Proof.
  induction catalog as [| [label queries] catalog IH]; intros total s r;
    simpl; [auto |].
  unfold scrape_label.
  pose proof (scrape_queries_rows label queries 0%nat s r) as H1.
  destruct (scrape_queries label 0%nat s queries) as [[added |] s1];
    cbn [snd] in H1 |- *; [| done].
  intros [H | H]%IH; auto.
Qed.

Lemma run_rows (fs : files) (w : World) :
  Forall Q (appended (res_trace (run fs w))).
Proof.
  apply Forall_forall. intros r. unfold run.
  destruct (load_seen_ids (raw_jsonl fs)) as [seen0 |];
    [| by intros []%elem_of_nil].
  pose proof (scrape_labels_rows LABEL_QUERIES 0%nat
                (Env w seen0 (raw_jsonl fs) []) r) as H.
  destruct (scrape_labels LABEL_QUERIES 0%nat (Env w seen0 (raw_jsonl fs) []))
    as [[total |] s']; cbn [snd] in H.
  - destruct (rebuild_csv (Files (raw s') (processed_csv fs))); simpl;
      intros [[]%elem_of_nil | Hr]%H; done.
  - simpl. intros [[]%elem_of_nil | Hr]%H; done.
Qed.

End Rows.

Lemma extract_full_text_tidy (w : World) (url : pystr) :
  tidy (extract_full_text w url).1 = true.
Proof.
  unfold extract_full_text.
  destruct (trafilatura_fetch_url w url) as [[[[| c page] |] |] w']; simpl;
    try done.
  destruct (trafilatura_extract (c :: page)); [| done].
  apply clean_text_is_tidy.
Qed.

(** X15. In every row that a run appends, the title, the summary, the date of
    publication and the text are in the normal form of [clean_text], the
    source is the network location of the URL, and the id is the one of
    the URL. *)
Theorem run_rows_clean (fs : files) (w : World) :
  Forall (fun r =>
            tidy (row_title r) = true /\ tidy (row_summary r) = true /\
            tidy (row_published_at r) = true /\ tidy (row_text r) = true /\
            urlparse_netloc (row_url r) = Returns (row_source r) /\
            stable_id (row_url r) = Some (row_id r))
    (appended (res_trace (run fs w))).
Proof.
  apply run_rows. intros label added s e r. unfold process_entry.
  destruct (TARGET_PER_LABEL <=? added)%nat; [auto |].
  destruct (or_empty (entry_link e)) as [| c l]; [auto |].
  destruct (resolve_google_news_to_original (world s) (c :: l))
    as [orig w1].
  destruct (stable_id orig) as [i |] eqn:Ei.
  2:{ simpl. rewrite appended_app. simpl. rewrite app_nil_r. auto. }
  destruct (decide (i ∈ seen s)).
  { simpl. rewrite appended_app. simpl. rewrite app_nil_r. auto. }
  pose proof (extract_full_text_tidy w1 orig) as Hext.
  destruct (extract_full_text w1 orig) as [ext w2]. cbn [fst] in Hext.
  cbv zeta.
  destruct (len (fallback_text ext (clean_text (or_empty (entry_title e)))
                   (clean_text (summary_or_description e)))
            <? MIN_TEXT_LEN)%nat.
  { simpl. rewrite !appended_app. simpl. rewrite !app_nil_r. auto. }
  destruct (urlparse_netloc orig) as [source |] eqn:En.
  2:{ simpl. rewrite !appended_app. simpl. rewrite !app_nil_r. auto. }
  destruct (utcnow_isoformat w2) as [now w3].
  destruct (append_raw _ _) as [raw' []].
  2:{ simpl. rewrite !appended_app. simpl. rewrite !app_nil_r. auto. }
  assert (Hrow : forall s3 : env,
             trace s3 = (trace s ++ [EvResolve (c :: l)] ++ [EvExtract orig])
                        ++ [EvAppend
                              (mkRow i label source orig
                                 match entry_published e with
                                 | Some (c0 :: p) => clean_text (c0 :: p)
                                 | _ => []
                                 end
                                 (clean_text (or_empty (entry_title e)))
                                 (clean_text (summary_or_description e))
                                 (fallback_text ext
                                    (clean_text (or_empty (entry_title e)))
                                    (clean_text (summary_or_description e)))
                                 now); EvSleep] ->
             r ∈ appended (trace s3) ->
             r ∈ appended (trace s) \/
             (tidy (row_title r) = true /\ tidy (row_summary r) = true /\
              tidy (row_published_at r) = true /\ tidy (row_text r) = true /\
              urlparse_netloc (row_url r) = Returns (row_source r) /\
              stable_id (row_url r) = Some (row_id r))).
  { intros s3 ->. rewrite !appended_app. simpl. rewrite app_nil_r.
    intros [H | ->%list_elem_of_singleton]%elem_of_app; [auto |].
    right. simpl. split_and!; try done; try apply clean_text_is_tidy.
    - destruct (entry_published e) as [[| c0 p] |]; try done.
      apply clean_text_is_tidy.
    - unfold fallback_text. destruct (len ext <? MIN_TEXT_LEN)%nat; [| done].
      apply clean_text_is_tidy. }
  destruct (TARGET_PER_LABEL <=? S added)%nat; cbn [snd];
    apply Hrow; simpl; by rewrite <- !app_assoc.
Qed.


(** ** The events of a label *)

Lemma paced_app (t1 t2 : list event) :
  paced t1 -> paced t2 -> paced (t1 ++ t2).
Proof.
  remember (length t1) as n eqn:Hn. revert t1 Hn.
  induction n as [n IH] using lt_wf_ind. intros t1 Hn H1 H2.
  destruct t1 as [| ev t1]; [done |].
  destruct ev; simpl in H1 |- *; try done;
    try (apply (IH (length t1)); simpl in Hn; (done || lia)).
  destruct t1 as [| [] t1]; try done. simpl.
  apply (IH (length t1)); simpl in Hn; (done || lia).
Qed.

Lemma feeds_app (t1 t2 : list event) : feeds (t1 ++ t2) = feeds t1 ++ feeds t2.
Proof. unfold feeds. by rewrite omap_app. Qed.

Lemma process_entry_events (label : pystr) (added : nat) (s : env) (e : entry) :
  exists tr,
    trace (process_entry label added s e).2 = trace s ++ tr /\
    paced tr /\ feeds tr = [].
Proof.
  unfold process_entry.
  destruct (TARGET_PER_LABEL <=? added)%nat.
  { exists []. by rewrite app_nil_r. }
  destruct (or_empty (entry_link e)) as [| c l].
  { exists []. by rewrite app_nil_r. }
  destruct (resolve_google_news_to_original (world s) (c :: l))
    as [orig w1].
  destruct (stable_id orig) as [i |]; [| by exists [EvResolve (c :: l)]].
  destruct (decide (i ∈ seen s)); [by exists [EvResolve (c :: l)] |].
  destruct (extract_full_text w1 orig) as [ext w2]. cbv zeta.
  destruct (len _ <? MIN_TEXT_LEN)%nat.
  { exists [EvResolve (c :: l); EvExtract orig]. simpl.
    by rewrite <- app_assoc. }
  destruct (urlparse_netloc orig) as [source |].
  2:{ exists [EvResolve (c :: l); EvExtract orig]. simpl.
      by rewrite <- app_assoc. }
  destruct (utcnow_isoformat w2) as [now w3].
  destruct (append_raw _ _) as [raw' []].
  2:{ exists [EvResolve (c :: l); EvExtract orig]. simpl.
      by rewrite <- app_assoc. }
  eexists [EvResolve (c :: l); EvExtract orig; EvAppend _; EvSleep].
  destruct (TARGET_PER_LABEL <=? S added)%nat; simpl;
    by rewrite <- !app_assoc.
Qed.

Lemma scrape_entries_events (label : pystr) (entries : list entry) :
  forall added s,
  exists tr,
    trace (scrape_entries label added s entries).2 = trace s ++ tr /\
    paced tr /\ feeds tr = [].
Proof.
  induction entries as [| e entries IH]; intros added s; simpl.
  { exists []. by rewrite app_nil_r. }
  destruct (process_entry_events label added s e) as (t1 & Ht1 & Hp1 & Hf1).
  destruct (process_entry label added s e) as [[sig a1] s1].
  cbn [snd] in Ht1.
  destruct sig; [| by exists t1 | by exists t1].
  destruct (IH a1 s1) as (t2 & Ht2 & Hp2 & Hf2).
  exists (t1 ++ t2). split_and!.
  - by rewrite Ht2, Ht1, app_assoc.
  - by apply paced_app.
  - by rewrite feeds_app, Hf1, Hf2.
Qed.

Lemma scrape_queries_events (label : pystr) (queries : list pystr) :
  forall added s,
  exists tr,
    trace (scrape_queries label added s queries).2 = trace s ++ tr /\
    paced tr /\
    feeds tr `prefix_of` google_news_rss_url <$> queries /\
    match (scrape_queries label added s queries).1 with
    | Returns n =>
        (n < TARGET_PER_LABEL)%nat ->
        feeds tr = google_news_rss_url <$> queries
    | Raises => True
    end.
Proof.
  induction queries as [| q queries IH]; intros added s; simpl.
  { exists []. by rewrite app_nil_r. }
  destruct (feedparser_parse (world s) (google_news_rss_url q))
    as [entries w1].
  set (s1 := Env w1 (seen s) (raw s)
                 (trace s ++ [EvFeed (google_news_rss_url q)])).
  destruct (scrape_entries_events label entries added s1)
    as (t1 & Ht1 & Hp1 & Hf1).
  destruct (scrape_entries_grows label entries added s1)
    as (_ & _ & _ & _ & Hr1 & _).
  destruct (scrape_entries label added s1 entries) as [[sig a1] s2].
  cbn [fst snd] in Ht1, Hr1. subst s1. cbn [trace] in Ht1.
  destruct sig.
  - destruct (IH a1 s2) as (t2 & Ht2 & Hp2 & Hf2 & Hn2).
    exists ((EvFeed (google_news_rss_url q) :: t1) ++ t2). split_and!.
    + rewrite Ht2, Ht1. by rewrite <- !app_assoc.
    + apply paced_app; done.
    + rewrite feeds_app. simpl. fold (feeds t1). rewrite Hf1. simpl.
      by apply prefix_cons.
    + destruct (scrape_queries label a1 s2 queries).1; [| done].
      intros Hn. rewrite feeds_app. simpl. fold (feeds t1).
      rewrite Hf1. simpl. f_equal. auto.
  - exists (EvFeed (google_news_rss_url q) :: t1). cbn [fst snd]. split_and!.
    + rewrite Ht1. by rewrite <- !app_assoc.
    + done.
    + simpl. fold (feeds t1). rewrite Hf1.
      apply prefix_cons, prefix_nil.
    + cbn [fst]. intros Hn. specialize (Hr1 eq_refl). lia.
  - exists (EvFeed (google_news_rss_url q) :: t1). cbn [fst snd]. split_and!.
    + rewrite Ht1. by rewrite <- !app_assoc.
    + done.
    + simpl. fold (feeds t1). rewrite Hf1.
      apply prefix_cons, prefix_nil.
    + done.
Qed.

(** X16. In the events of [scrape_label] every append is followed at once by
    a pause and there is no other pause; the feeds are fetched in the
    order of the queries, one for each query that is reached, and all of
    them when the call returns a total below the quota. *)
Theorem scrape_label_events (label : pystr) (queries : list pystr) (s : env) :
  exists tr,
    trace (scrape_label label queries s).2 = trace s ++ tr /\
    paced tr /\
    feeds tr `prefix_of` google_news_rss_url <$> queries /\
    match (scrape_label label queries s).1 with
    | Returns n =>
        (n < TARGET_PER_LABEL)%nat ->
        feeds tr = google_news_rss_url <$> queries
    | Raises => True
    end.
Proof. apply scrape_queries_events. Qed.

End Scraper.

(** * The statements at the stand-ins *)

(** ** Link resolver *)

(** C3: with an empty input and a request that fails, the resolver
    returns the empty string. *)
Lemma resolve_empty_input :
  (resolve_google_news_to_original unit offline_get tt []).1 = [].
Proof. reflexivity. Qed.

(** [resolve_never_empty] at a canonical link and at a request that
    fails. *)
Lemma resolve_never_empty_witness :
  ((resolve_google_news_to_original unit offline_get tt
      (py "https://news.example/articles/abc")).1 <> [] /\
   (resolve_google_news_to_original unit offline_get tt
      (py "https://news.example/articles/abc")).1
   = py "https://news.example/articles/abc") /\
  (resolve_google_news_to_original unit publisher_get tt
     (py "https://news.example/articles/abc")).1
  = py "https://real-publisher.com/story/1".
Proof.
  split; [| reflexivity].
  destruct (resolve_never_empty unit offline_get tt
              (py "https://news.example/articles/abc")) as (H1 & H2 & _).
  - discriminate.
  - split; [exact H1 | apply H2; reflexivity].
Defined.

(** C4: the only anchor of [referrer_page] is an absolute HTTPS link whose
    host is [example.com]; the specification returns it, the code does
    not, because the link contains ["news.google.com"] in its query. *)
Lemma resolve_referrer_link :
  spec_find_original referrer_page
  = Some (py "https://example.com/?ref=news.google.com") /\
  spec_host (py "https://example.com/?ref=news.google.com")
  = py "example.com" /\
  find_original referrer_page = None /\
  (resolve_google_news_to_original unit referrer_get tt
     (py "https://news.google.com/articles/abc")).1
  = py "https://news.google.com/articles/abc".
Proof. vm_compute. repeat split; reflexivity. Qed.

(** ** Identity function *)

(** [stable_id_collision_free] at a digest of forty hexadecimal digits
    and at two URLs that differ in their last character. *)
Lemma stable_id_collision_free_witness :
  (len <$> stable_id short_digest (py "https://a.example/1")
   = Some 40%nat /\
   stable_id short_digest (py "https://a.example/1")
   <> stable_id short_digest (py "https://a.example/2")) /\
  (stable_id short_digest (py "https://a.example/1")
   = stable_id short_digest (py "https://a.example/2")
   <-> py "https://a.example/1" = py "https://a.example/2").
Proof.
  split; [split; [reflexivity | vm_compute; discriminate] |].
  apply (stable_id_collision_free short_digest
           (py "https://a.example/1") (py "https://a.example/2")
           (py "https://a.example/1") (py "https://a.example/2"));
    [reflexivity | reflexivity |].
  vm_compute. discriminate.
Defined.

(** ** The writer and the reader of records *)

Lemma toy_read_field_spec (s : pystr) (d : N) (rest : pystr) :
  d < 0x40 -> toy_read_field (toy_field s ++ d :: rest) = (s, rest).
Proof.
  intros Hd. induction s as [| c s IH].
  - simpl. apply N.leb_gt in Hd. destruct rest; [done |]. by rewrite Hd.
  - change (toy_field (c :: s) ++ d :: rest)
      with (0x40 + c / 4096 :: 0x1000 + c mod 4096
            :: (toy_field s ++ d :: rest)).
    cbn [toy_read_field]. rewrite IH.
    replace (0x40 <=? 0x40 + c / 4096) with true
      by (symmetry; apply N.leb_le, N.le_add_r).
    f_equal. f_equal.
    rewrite (N.add_comm 0x40), (N.add_comm 0x1000), !N.add_sub.
    rewrite N.mul_comm. symmetry. apply N.div_mod'.
Qed.

Lemma toy_loads_dumps (r : Row) :
  toy_loads (toy_dumps r ++ [0x0A]) = Some (row_obj r).
Proof.
  destruct r. unfold toy_dumps, toy_loads. simpl.
  repeat (rewrite <- !app_comm_cons || rewrite <- !app_assoc).
  rewrite !toy_read_field_spec by done. done.
Qed.

Lemma toy_field_plain (s : pystr) :
  Forall (fun c => c <> 0x0A /\ c <> 0x0D) (toy_field s).
Proof.
  induction s as [| c s IH]; [constructor |].
  change (toy_field (c :: s))
    with (0x40 + c / 4096 :: 0x1000 + c mod 4096 :: toy_field s).
  assert (Hq : forall q, 0x40 + q <> 0x0A /\ 0x40 + q <> 0x0D) by (intros; lia).
  assert (Hm : forall m, 0x1000 + m <> 0x0A /\ 0x1000 + m <> 0x0D)
    by (intros; lia).
  repeat (constructor; [done |]). done.
Qed.

Lemma toy_round_trip : json_round_trip toy_dumps toy_loads.
Proof.
  intros r. split.
  - unfold line_id. rewrite toy_loads_dumps. simpl.
    unfold row_obj. simpl. apply lookup_insert_eq.
  - unfold toy_dumps.
    repeat first
      [ apply Forall_cons; split; [done |]
      | apply Forall_app; split; [apply toy_field_plain |] ].
    constructor.
Qed.

(** ** Short texts *)

Local Abbreviation scenario_turn :=
  (process_entry plain_digest toy_dumps no_netloc extract_empty unit
     publisher_get fetch_page fixed_clock (py "business") 0%nat
     (Env unit tt ∅ None []) entry_x).

Local Abbreviation long_turn :=
  (process_entry plain_digest toy_dumps no_netloc extract_empty unit
     publisher_get fetch_page fixed_clock (py "business") 0%nat
     (Env unit tt ∅ None []) entry_long).

(** [short_text_discarded] at the scenario of the specification: the
    link resolves to the publisher, the extractor finds nothing, the
    title is ["X"] and the summary is empty; and at the same entry with a
    long summary, which is stored with the title and the summary as its
    text. *)
Lemma short_text_discarded_witness :
  (clean_text (py "X" ++ py ". " ++ []) = py "X." /\
   (resolve_google_news_to_original unit publisher_get tt
      (py "https://news.example/articles/abc")).1
   = py "https://real-publisher.com/story/1" /\
   scenario_turn.1.1 = Next /\
   scenario_turn.1.2 = 0%nat /\
   seen unit scenario_turn.2 = ∅ /\
   raw unit scenario_turn.2 = None /\
   appended (trace unit scenario_turn.2) = []) /\
  exists row,
    appended (trace unit long_turn.2) = [row] /\
    row_text row = clean_text (py "X" ++ py ". " ++ story) /\
    long_turn.1.2 = 1%nat.
Proof.
  split.
  - split; [reflexivity |]. split; [reflexivity |].
    destruct (short_text_discarded plain_digest toy_dumps no_netloc
                extract_empty unit publisher_get fetch_page fixed_clock
                (py "business") 0%nat (Env unit tt ∅ None []) entry_x)
      as (_ & H & _); [vm_compute; lia |].
    destruct H as (H1 & H2 & H3 & H4 & H5); [vm_compute; lia |].
    split; [apply H5; [vm_compute; lia | vm_compute; eauto] |].
    split; [exact H2 |]. split; [exact H3 |]. split; [exact H4 | exact H1].
  - destruct (short_text_discarded plain_digest toy_dumps no_netloc
                extract_empty unit publisher_get fetch_page fixed_clock
                (py "business") 0%nat (Env unit tt ∅ None []) entry_long)
      as (_ & _ & H); [vm_compute; lia |].
    destruct (H ltac:(vm_compute; lia) ltac:(vm_compute; lia)
                ltac:(discriminate)
                (plain_digest (py "https://real-publisher.com/story/1"))
                eq_refl ltac:(apply not_elem_of_empty))
      as [(Hr & _) | (row & Ha & Ht & _ & _ & _ & _ & _ & Hn & _)].
    + vm_compute in Hr. discriminate.
    + exists row. split; [exact Ha |]. split; [exact Ht | exact Hn].
Defined.

(** ** Loading the ledger *)

(** [load_seen_ids_truncated] at a log of one record followed by the
    first two bytes of a euro sign. *)
Lemma load_seen_ids_truncated_witness :
  utf8_encode (toy_dumps (toy_row (py "a") (py "business")) ++ [0x0A])
  = Some (line_bytes toy_dumps (toy_row (py "a") (py "business"))) /\
  load_seen_ids toy_loads
    (Some (line_bytes toy_dumps (toy_row (py "a") (py "business"))
           ++ [0xE2; 0x82]))
  = Raises.
Proof.
  split; [reflexivity |].
  apply (load_seen_ids_truncated toy_loads
           (toy_dumps (toy_row (py "a") (py "business")) ++ [0x0A])).
  reflexivity.
Defined.

(** ** Rebuilding the table *)

(** C6: with no log, and with a log that is empty, [rebuild_csv]
    writes nothing and the table of an earlier rebuild stays. *)
Lemma rebuild_csv_keeps_stale_table :
  rebuild_csv (option pystr) toy_read_json toy_csv_cell
    (Files None (Some stale_table))
  = Returns (Files None (Some stale_table)) /\
  rebuild_csv (option pystr) toy_read_json toy_csv_cell
    (Files (Some []) (Some stale_table))
  = Returns (Files (Some []) (Some stale_table)).
Proof. vm_compute. split; reflexivity. Qed.

Local Abbreviation toy_df :=
  [ row_obj (toy_row (py "a") (py "business"));
    row_obj (toy_row (py "b") (py "tech"));
    row_obj (toy_row (py "a") (py "world")) ].

Local Abbreviation toy_table :=
  (Table cols
     ((fun r => toy_csv_cell <$> (r <$> cols))
        <$> kept_rows (option pystr) (toy_frame toy_df))).

Lemma toy_records_log : toy_records toy_log = Some toy_df.
Proof. cbv -[row_obj]. reflexivity. Qed.

(** [rebuild_csv_snapshot] at [toy_log]: the table has the first record
    of id ["a"] and the record of id ["b"], and replaces the table that
    was there. *)
Lemma rebuild_csv_snapshot_witness :
  rebuild_csv (option pystr) toy_read_json toy_csv_cell
    (Files (Some toy_log) (Some stale_table))
  = Returns (Files (Some toy_log) (Some toy_table)) /\
  rebuild_csv (option pystr) toy_read_json toy_csv_cell
    (Files (Some toy_log) (Some toy_table))
  = Returns (Files (Some toy_log) (Some toy_table)) /\
  map (take 2) (rows toy_table)
  = [ [py "a"; py "business"]; [py "b"; py "tech"] ].
Proof.
  assert (Hread : toy_read_json toy_log = Returns (toy_frame toy_df)).
  { unfold toy_read_json. by rewrite toy_records_log. }
  split; [| split; [| vm_compute; reflexivity]].
  - apply (rebuild_csv_snapshot (option pystr) toy_read_json toy_csv_cell
             (Files (Some toy_log) (Some stale_table)) toy_log
             (toy_frame toy_df)).
    + reflexivity.
    + exact Hread.
    + discriminate.
    + apply (bool_decide_unpack _). vm_compute. exact I.
  - apply (rebuild_csv_snapshot (option pystr) toy_read_json toy_csv_cell
             (Files (Some toy_log) (Some stale_table)) toy_log
             (toy_frame toy_df)).
    + reflexivity.
    + exact Hread.
    + discriminate.
    + apply (bool_decide_unpack _). vm_compute. exact I.
Defined.

(** ** One ledger for all the labels *)

(** C10: the feed has the same link under "business", with a title and
    no summary, and under "tech", with a long summary; no text can be
    downloaded.  The entry under "business" comes first and is dropped
    for its short text; the row that is stored has the label "tech". *)
Lemma later_label_stored :
  (feed_two_labels tt
     (google_news_rss_url (first_query (py "business")))).1 = [entry_x] /\
  (feed_two_labels tt
     (google_news_rss_url (first_query (py "tech")))).1 = [entry_long] /\
  entry_link entry_x = entry_link entry_long /\
  map (fun r => (row_label r, row_url r))
    (appended
       (res_trace unit
          (run plain_digest toy_dumps toy_loads (option pystr) toy_read_json
     toy_csv_cell no_netloc extract_empty unit
             feed_two_labels offline_get fetch_nothing fixed_clock
             (Files None None) tt)))
  = [ (py "tech", py "https://news.example/articles/abc") ].
Proof. vm_compute. repeat split; reflexivity. Qed.

(** ** No id twice *)

Local Abbreviation flaky_run fs w :=
  (run plain_digest toy_dumps toy_loads (option pystr) toy_read_json
     toy_csv_cell no_netloc extract_story bool
     (feed_under (py "business") entry_x) no_get fetch_second_time
     fixed_clock fs w).

(** C1: the feed has one entry, always the same, and its link resolves
    to itself.  The download fails in the first run, and the entry is
    dropped for its short text without a trace in the ledger; it succeeds
    in the second run, which appends a row. *)
Lemma second_run_appends :
  appended (res_trace bool (flaky_run (Files None None) false)) = [] /\
  res_total bool (flaky_run (Files None None) false) = Returns 0%nat /\
  length
    (appended
       (res_trace bool
          (flaky_run (res_files bool (flaky_run (Files None None) false))
             (res_world bool (flaky_run (Files None None) false)))))
  = 1%nat /\
  res_total bool
    (flaky_run (res_files bool (flaky_run (Files None None) false))
       (res_world bool (flaky_run (Files None None) false)))
  = Returns 1%nat.
Proof. vm_compute. repeat split; reflexivity. Qed.

Local Abbreviation steady_run fs w :=
  (run plain_digest toy_dumps toy_loads (option pystr) toy_read_json
     toy_csv_cell no_netloc extract_empty unit
     (feed_under (py "business") entry_long) offline_get fetch_nothing
     fixed_clock fs w).

Lemma count_label_le (label : pystr) (l : list Row) :
  (count_label label l <= length l)%nat.
Proof. apply length_filter. Qed.

(** [second_run_appends_nothing] at a feed with one entry whose summary
    is long, in a world that does not change: the first run appends one
    row, the second none. *)
Lemma second_run_appends_nothing_witness :
  length (appended (res_trace unit (steady_run (Files None None) tt)))
  = 1%nat /\
  appended
    (res_trace unit
       (steady_run (res_files unit (steady_run (Files None None) tt))
          (res_world unit (steady_run (Files None None) tt))))
  = [] /\
  raw_jsonl
    (res_files unit
       (steady_run (res_files unit (steady_run (Files None None) tt))
          (res_world unit (steady_run (Files None None) tt))))
  = raw_jsonl (res_files unit (steady_run (Files None None) tt)).
Proof.
  assert (Hone : length (appended (res_trace unit
                           (steady_run (Files None None) tt))) = 1%nat)
    by (vm_compute; reflexivity).
  split; [exact Hone |].
  destruct (second_run_appends_nothing plain_digest toy_dumps toy_loads
              (option pystr) toy_read_json toy_csv_cell no_netloc extract_empty unit
              (feed_under (py "business") entry_long) offline_get
              fetch_nothing fixed_clock (Files None None) tt)
    as [_ H].
  - exact toy_round_trip.
  - exists []. split; [reflexivity | discriminate].
  - apply H.
    + repeat split; intros [] [] u; reflexivity.
    + exists 1%nat. vm_compute. reflexivity.
    + intros label.
      pose proof (count_label_le label
                    (appended (res_trace unit
                                 (steady_run (Files None None) tt)))) as Hle.
      rewrite Hone in Hle. unfold TARGET_PER_LABEL. lia.
Defined.

(** ** The ledger and the log *)

(** [append_then_load] at the first row written to a log that does not
    exist yet. *)
Lemma append_then_load_witness :
  load_seen_ids toy_loads
    (append_raw toy_dumps (toy_row (py "a") (py "business")) None).1
  = Returns ({[ py "a" ]} ∪ ∅) /\
  complete_log
    (append_raw toy_dumps (toy_row (py "a") (py "business")) None).1.
Proof.
  apply (append_then_load plain_digest toy_dumps toy_loads (option pystr)
           toy_read_json no_netloc extract_empty (toy_row (py "a") (py "business")) None ∅).
  - exact toy_round_trip.
  - exists []. split; [reflexivity | discriminate].
  - reflexivity.
  - reflexivity.
Defined.
